(** * Location-sensitive attention (models/attention.py)

    A shallow embedding of [_location_sensitive_score],
    [_smoothing_normalization] and [LocationSensitiveAttention] together
    with the properties stated about them.

    Numbers.  Tensor entries are real numbers (Stdlib [R]); the only
    non-finite value that the program itself introduces is the score mask
    value [-inf], which is modelled by the constructor [NegInf] of [score].
    Rounding, overflow and NaN of the float32 arithmetic are outside this
    model: the statements about [R] are about exact arithmetic.  Where the
    rounding decides a property, the smoothing normalization is embedded a
    second time over IEEE 754 binary32 numbers (Stdlib [SpecFloat]).

    Tensors.  A tensor is a dtype tag plus nested lists, one nesting level
    per axis.  Operations that TensorFlow rejects (dtype mismatch, shapes
    that do not broadcast, a variable that already exists) return [Err].

    Variables.  [tf.get_variable] and [variable_scope] act on an explicit
    variable store that is threaded through the computation.  The store
    holds the variables that this file asks for with [tf.get_variable],
    that is the scoring vector [v_a].  The kernels of the three layers
    (query layer, location convolution, location projection) belong to
    the layer objects, which create them inside the library the first time
    they are applied; here they are fields of the layers and are not
    entered in the store.  Statements about the store therefore speak of
    [v_a] and of the variables that existed before a call, never of the
    whole content of the store after a call. *)

From Stdlib Require Import Reals Lra SpecFloat.
From stdpp Require Import base option list strings pretty gmap.

(** ** Results and the store-passing monad *)

Inductive error :=
  | TypeError        (* dtype mismatch between operands *)
  | ShapeError       (* shapes that cannot be broadcast / matmul'ed *)
  | ValueError       (* variable store refuses get_variable *)
  | AssertionError.  (* a tf assert op fails *)

Inductive result (A : Type) :=
  | Ok (a : A)
  | Err (e : error).
Arguments Ok {A} a.
Arguments Err {A} e.

#[global] Instance result_ret : MRet result := λ A a, Ok a.
#[global] Instance result_bind : MBind result := λ A B f r,
  match r with Ok a => f a | Err e => Err e end.
#[global] Instance result_fmap : FMap result := λ A B f r,
  match r with Ok a => Ok (f a) | Err e => Err e end.

(** ** dtypes and tensors *)

Inductive DType := float16 | float32 | float64 | int32 | int64.

#[global] Instance DType_eq_dec : EqDecision DType.
Proof. solve_decision. Defined.

Definition is_floating (d : DType) : bool :=
  match d with float16 | float32 | float64 => true | _ => false end.

Record Tensor (A : Type) := mkTensor { t_dtype : DType; t_val : A }.
Arguments mkTensor {A} t_dtype t_val.
Arguments t_dtype {A} t.
Arguments t_val {A} t.

Abbreviation tensor1 := (list R).
Abbreviation tensor2 := (list (list R)).
Abbreviation tensor3 := (list (list (list R))).

(** Shapes of nested lists (every row of the stated length). *)
Definition has_shape1 (n : nat) (x : tensor1) : Prop := length x = n.
Definition has_shape2 (n m : nat) (x : tensor2) : Prop :=
  length x = n ∧ Forall (has_shape1 m) x.
Definition has_shape3 (n m k : nat) (x : tensor3) : Prop :=
  length x = n ∧ Forall (has_shape2 m k) x.

(** ** Elementwise operations with broadcasting *)

(** One axis of NumPy-style broadcasting: a length-1 axis is stretched,
    equal lengths are zipped, anything else is a shape error. *)
Definition bcast {A B C} (f : A → B → result C)
    (xs : list A) (ys : list B) : result (list C) :=
  match xs, ys with
  | [x], _ => mapM (f x) ys
  | _, [y] => mapM (λ x, f x y) xs
  | _, _ =>
      if decide (length xs = length ys)
      then mapM (λ p, f p.1 p.2) (zip xs ys)
      else Err ShapeError
  end.

Definition bcast1 (f : R → R → R) : tensor1 → tensor1 → result tensor1 :=
  bcast (λ a b, Ok (f a b)).
Definition bcast2 (f : R → R → R) : tensor2 → tensor2 → result tensor2 :=
  bcast (bcast1 f).
Definition bcast3 (f : R → R → R) : tensor3 → tensor3 → result tensor3 :=
  bcast (bcast2 f).

(** A binary tensor op: TensorFlow never casts implicitly, the operands
    must have the same dtype. *)
Definition binop {A B C} (f : A → B → result C)
    (x : Tensor A) (y : Tensor B) : result (Tensor C) :=
  if decide (t_dtype x = t_dtype y)
  then v ← f (t_val x) (t_val y); Ok (mkTensor (t_dtype x) v)
  else Err TypeError.

(** [x + y] on rank-3 tensors. *)
Definition tf_add3 : Tensor tensor3 → Tensor tensor3 → result (Tensor tensor3) :=
  binop (bcast3 Rplus).

(** [v * x] for a rank-1 [v] and a rank-3 [x]: the rank-1 operand is
    aligned with the trailing axis, i.e. reshaped to [1, 1, n]. *)
Definition tf_mul_1_3 : Tensor tensor1 → Tensor tensor3 → result (Tensor tensor3) :=
  binop (λ v x, bcast3 Rmult [[v]] x).

(** [tf.tanh]: defined on floating dtypes only. *)
Definition tf_tanh (x : Tensor tensor3) : result (Tensor tensor3) :=
  if is_floating (t_dtype x)
  then Ok (mkTensor (t_dtype x) (map (map (map tanh)) (t_val x)))
  else Err TypeError.

Definition sum_R (l : list R) : R := foldr Rplus 0%R l.

(** [tf.reduce_sum(x, axis=2)] on a rank-3 tensor. *)
Definition reduce_sum_axis2 (x : Tensor tensor3) : Tensor tensor2 :=
  mkTensor (t_dtype x) (map (map sum_R) (t_val x)).

(** ** The variable store

    The file imports TensorFlow's [variable_scope] and calls
    [tf.get_variable]; both act on per-graph registries keyed by name
    strings (tensorflow/python/ops/variable_scope.py).  The definitions
    below follow that module: the variables by full name, the count of how
    often each scope name was opened, and the current scope with its reuse
    flag. *)

(** reuse flag of a variable scope: [None]/[False], [True], [tf.AUTO_REUSE] *)
Inductive Reuse := NoReuse | ReuseTrue | AutoReuse.

Record TFVariable := mkVar {
  var_shape : list nat;
  var_dtype : DType;
  var_value : nat → R;   (* entry k, in row-major order *)
}.

Record VarStore := mkStore {
  vs_vars : gmap string TFVariable;   (* variables by full name *)
  vs_scope_count : gmap string nat;   (* how often each scope name was opened *)
  vs_scope_name : string;             (* name of the current variable scope *)
  vs_reuse : Reuse;                   (* reuse flag of the current scope *)
  vs_init : string → nat → R;         (* value given to entry k of a new variable *)
}.

Definition M (A : Type) : Type := VarStore → result A * VarStore.

#[global] Instance M_ret : MRet M := λ A a st, (Ok a, st).
#[global] Instance M_bind : MBind M := λ A B f m st,
  match m st with
  | (Ok a, st') => f a st'
  | (Err e, st') => (Err e, st')
  end.

Definition lift {A} (r : result A) : M A := λ st, (r, st).

Definition full_name (scope name : string) : string :=
  if decide (scope = "") then name else scope +:+ "/" +:+ name.

Definition variable_scope_count (st : VarStore) (name : string) : nat :=
  default 0 (vs_scope_count st !! name).

Definition numel (shape : list nat) : nat := foldr Nat.mul 1 shape.

(** Reading a variable as a (flat) tensor. *)
Definition read_variable (v : TFVariable) : Tensor tensor1 :=
  mkTensor (var_dtype v) (map (var_value v) (seq 0 (numel (var_shape v)))).

(** [tf.get_variable(name, shape=..., dtype=...)] in the current scope.
    Without reuse an existing variable is an error and a missing one is
    created; with reuse=True a missing one is an error; with AUTO_REUSE
    the variable is fetched or created.  A fetched variable must have the
    requested shape and dtype. *)
Definition get_variable (name : string) (shape : list nat) (dtype : DType)
    : M (Tensor tensor1) := λ st,
  let full := full_name (vs_scope_name st) name in
  match vs_vars st !! full with
  | Some v =>
      match vs_reuse st with
      | NoReuse => (Err ValueError, st)            (* already exists *)
      | _ =>
          if decide (var_shape v = shape ∧ var_dtype v = dtype)
          then (Ok (read_variable v), st)
          else (Err ValueError, st)
      end
  | None =>
      match vs_reuse st with
      | ReuseTrue => (Err ValueError, st)          (* does not exist *)
      | _ =>
          let v := mkVar shape dtype (vs_init st full) in
          (Ok (read_variable v),
           mkStore (<[full := v]> (vs_vars st)) (vs_scope_count st)
                   (vs_scope_name st) (vs_reuse st) (vs_init st))
      end
  end.

(** [_get_unique_variable_scope]: the prefix itself if it was never opened
    under the current scope, else the prefix with the first suffix _1, _2,
    ... that was never opened.  The library searches with a while loop;
    here the search has fuel, the number of counted scope names, which
    always suffices ([unique_idx_unused] below). *)
Fixpoint unique_idx (fuel : nat) (count : gmap string nat) (name : string)
    (idx : nat) : nat :=
  match fuel with
  | 0 => idx
  | S fuel' =>
      if decide (0 < default 0 (count !! (name +:+ "_" +:+ pretty idx)))
      then unique_idx fuel' count name (S idx)
      else idx
  end.

Definition _get_unique_variable_scope (prefix : string) (st : VarStore) : string :=
  let name := full_name (vs_scope_name st) prefix in
  if decide (variable_scope_count st name = 0) then prefix
  else prefix +:+ "_"
       +:+ pretty (unique_idx (size (vs_scope_count st)) (vs_scope_count st) name 1).

(** [close_variable_subscopes]: the counts of the scopes below
    [scope_name] are reset. *)
Definition close_variable_subscopes (scope_name : string)
    (count : gmap string nat) : gmap string nat :=
  map_imap (λ k c, Some (if String.prefix (scope_name +:+ "/") k then 0 else c)) count.

(** Entering [variable_scope(None, default_name)]: the default name is
    made unique among the scopes opened under the current one, the new
    scope is counted, and it inherits the reuse flag. *)
Definition enter_scope (default_name : string) (st : VarStore) : VarStore :=
  let unique := _get_unique_variable_scope default_name st in
  let new_name := full_name (vs_scope_name st) unique in
  mkStore (vs_vars st)
          (<[new_name := S (variable_scope_count st new_name)]> (vs_scope_count st))
          new_name (vs_reuse st) (vs_init st).

(** Leaving it: back to the scope [old] was in; the scopes opened below
    the one that is left can be opened again under their first name. *)
Definition exit_scope (old st' : VarStore) (new_name : string) : VarStore :=
  mkStore (vs_vars st')
          (close_variable_subscopes new_name (vs_scope_count st'))
          (vs_scope_name old) (vs_reuse old) (vs_init st').

(** [with variable_scope(None, default_name): body] *)
Definition variable_scope {A} (default_name : string) (body : M A) : M A := λ st,
  let entered := enter_scope default_name st in
  let '(r, st') := body entered in
  (r, exit_scope st st' (vs_scope_name entered)).

(** ** The score function *)

(** Trailing dimension of a rank-3 tensor, [W_query.shape[-1]], read off
    the first row of the first batch entry.  A nested list that has no such
    row (an empty batch, or a batch entry without rows) carries no trailing
    dimension and gives 0, where the library still knows the static shape;
    the fallback to the dynamic shape in the source, taken when the static
    dimension is unknown, has no counterpart for a list.  The statements
    that depend on the number of units assume a non-empty batch. *)
Definition last_dim3 (x : tensor3) : nat := length (hd [] (hd [] x)).

Definition _location_sensitive_score (W_query W_fil W_keys : Tensor tensor3)
    : M (Tensor tensor2) :=
  let dtype := t_dtype W_query in
  let num_units := last_dim3 (t_val W_query) in
  v_a ← get_variable "v_a" [num_units] float32;
  lift (s ← tf_add3 W_keys W_query;
        s ← tf_add3 s W_fil;
        th ← tf_tanh s;
        p ← tf_mul_1_3 v_a th;
        Ok (reduce_sum_axis2 p)).

(** ** Scores with the mask value, and the normalization functions *)

(** An energy entry after masking: a real number or the mask value -inf. *)
Inductive score :=
  | Fin (x : R)
  | NegInf.

Abbreviation stensor2 := (list (list score)).

(** [exp] and the logistic function, extended to -inf by their limits. *)
Definition exp_s (s : score) : R :=
  match s with Fin x => exp x | NegInf => 0%R end.

Definition sigmoid (x : R) : R := (1 / (1 + exp (- x)))%R.

Definition sigmoid_s (s : score) : R :=
  match s with Fin x => sigmoid x | NegInf => 0%R end.

(** [tf.nn.sigmoid] *)
Definition tf_sigmoid (e : Tensor stensor2) : result (Tensor tensor2) :=
  if is_floating (t_dtype e)
  then Ok (mkTensor (t_dtype e) (map (map sigmoid_s) (t_val e)))
  else Err TypeError.

(** [tf.reduce_sum(x, axis=-1, keepdims=True)] on a rank-2 tensor. *)
Definition reduce_sum_keepdims (x : Tensor tensor2) : Tensor tensor2 :=
  mkTensor (t_dtype x) (map (λ row, [sum_R row]) (t_val x)).

(** [x / y] on rank-2 tensors. *)
Definition tf_div2 : Tensor tensor2 → Tensor tensor2 → result (Tensor tensor2) :=
  binop (bcast2 Rdiv).

Definition _smoothing_normalization (e : Tensor stensor2) : result (Tensor tensor2) :=
  num ← tf_sigmoid e;
  s ← tf_sigmoid e;
  tf_div2 num (reduce_sum_keepdims s).

(** [tf.nn.softmax] over the last axis. *)
Definition softmax_row (row : list score) : tensor1 :=
  map (λ s, (exp_s s / sum_R (map exp_s row))%R) row.

Definition softmax (e : Tensor stensor2) : result (Tensor tensor2) :=
  if is_floating (t_dtype e)
  then Ok (mkTensor (t_dtype e) (map softmax_row (t_val e)))
  else Err TypeError.

(** ** The smoothing normalization in binary32

    The tensors of the program hold IEEE 754 binary32 numbers: 24 bits of
    precision, exponents below 128, every operation rounded to the nearest
    number, ties to even.  A number is written [S754_finite s m e] for
    (-1)^s * m * 2^e.  [tf.nn.sigmoid] is a kernel of the tensor library;
    its values are a parameter of the embedding. *)

Definition prec32 : Z := 24.
Definition emax32 : Z := 128.

Definition f32_add : spec_float → spec_float → spec_float := SFadd prec32 emax32.
Definition f32_div : spec_float → spec_float → spec_float := SFdiv prec32 emax32.
Definition f32_zero : spec_float := S754_zero false.
Definition f32_one : spec_float := SFone prec32 emax32.

(** [tf.reduce_sum] over one row, accumulated from the left. *)
Definition reduce_sum32 (row : list spec_float) : spec_float :=
  foldl f32_add f32_zero row.

(** [tf.nn.sigmoid(e) / tf.reduce_sum(tf.nn.sigmoid(e), axis=-1, keepdims=True)] *)
Definition _smoothing_normalization32 (sigmoid32 : spec_float → spec_float)
    (e : list (list spec_float)) : list (list spec_float) :=
  zip_with (λ row total, map (λ x, f32_div x total) row)
           (map (map sigmoid32) e)
           (map (λ row, reduce_sum32 (map sigmoid32 row)) e).

(** The energy -2, and the binary32 value of the logistic function there:
    1 / (1 + e^2) = 0.11920292202..., of which the nearest binary32 number
    is 15999145 * 2^-27 = 0.11920291930... (bit pattern 0x3DF420A9); that
    it is the nearest one is [sigmoid32_minus_two_nearest] below. *)
Definition f32_minus_two : spec_float := S754_finite true 8388608 (-22).

Definition sigmoid32_minus_two : spec_float := S754_finite false 15999145 (-27).

(** The kernel, as far as it is needed: its value at -2. *)
Definition sigmoid32_table (x : spec_float) : spec_float :=
  if SFeqb x f32_minus_two then sigmoid32_minus_two else S754_nan.

(** The real number a finite binary32 number stands for. *)
Definition f32_to_R (x : spec_float) : R :=
  match x with
  | S754_finite s m e =>
      let a := IZR (Z.pos m) in
      let v := if (0 <=? e)%Z then (a * IZR (2 ^ e))%R
               else (a / IZR (2 ^ (- e)))%R in
      if s then (- v)%R else v
  | _ => 0%R
  end.

(** 1 / n!, for the partial sums of the series of [exp]. *)
Fixpoint inv_fact (n : nat) : R :=
  match n with
  | 0 => 1%R
  | S k => (inv_fact k / INR (S k))%R
  end.

(** ** Layers *)

(** [tf.layers.Dense(units, use_bias=False)] with its kernel of shape
    [input_dim, units]. *)
Record Dense := mkDense {
  units : nat;
  dense_kernel : Tensor tensor2;
}.

Definition vec_mat (n : nat) (W : tensor2) (x : tensor1) : result tensor1 :=
  if decide (length x = length W)
  then Ok (map (λ u, sum_R (zip_with (λ xd Wd, (xd * nth u Wd 0)%R) x W)) (seq 0 n))
  else Err ShapeError.

(** The layer applied to a rank-2 and to a rank-3 input (product over the
    last axis). *)
Definition dense2 (l : Dense) (x : Tensor tensor2) : result (Tensor tensor2) :=
  binop (λ x W, mapM (vec_mat (units l) W) x) x (dense_kernel l).

Definition dense3 (l : Dense) (x : Tensor tensor3) : result (Tensor tensor3) :=
  binop (λ x W, mapM (mapM (vec_mat (units l) W)) x) x (dense_kernel l).

(** [tf.layers.Conv1D(filters, kernel_size, padding='same', use_bias=False)]
    with its kernel of shape [kernel_size, in_channels, filters]. *)
Record Conv1D := mkConv1D {
  filters : nat;
  kernel_size : nat;
  conv_kernel : Tensor tensor3;
}.

(** Zero padding of 'same': kernel_size - 1 rows in total, the smaller half
    in front. *)
Definition pad_same (K C : nat) (x : tensor2) : tensor2 :=
  replicate ((K - 1) / 2) (replicate C 0%R) ++ x
  ++ replicate (K - 1 - (K - 1) / 2) (replicate C 0%R).

Definition conv_at (F : nat) (W : tensor3) (window : tensor2) : tensor1 :=
  map (λ f, sum_R (zip_with (λ xrow Wk,
              sum_R (zip_with (λ xc Wkc, (xc * nth f Wkc 0)%R) xrow Wk))
            window W))
      (seq 0 F).

Definition conv1d_row (l : Conv1D) (W : tensor3) (x : tensor2) : result tensor2 :=
  let C := length (hd [] W) in
  if decide (length W = kernel_size l ∧ Forall (λ xt, length xt = C) x)
  then
    let xp := pad_same (kernel_size l) C x in
    Ok (map (λ t, conv_at (filters l) W (take (kernel_size l) (drop t xp)))
            (seq 0 (length x)))
  else Err ShapeError.

Definition conv1d (l : Conv1D) (x : Tensor tensor3) : result (Tensor tensor3) :=
  binop (λ x W, mapM (conv1d_row l W) x) x (conv_kernel l).

(** [tf.expand_dims(x, 1)] and [tf.expand_dims(x, axis=2)] on rank 2. *)
Definition expand_dims_1 (x : Tensor tensor2) : Tensor tensor3 :=
  mkTensor (t_dtype x) (map (λ row, [row]) (t_val x)).

Definition expand_dims_2 (x : Tensor tensor2) : Tensor tensor3 :=
  mkTensor (t_dtype x) (map (map (λ a, [a])) (t_val x)).

(** ** The inherited attention mechanism *)

(** [array_ops.sequence_mask(lengths, maxlen)] *)
Definition sequence_mask (lengths : list Z) (maxlen : nat) : list (list bool) :=
  map (λ L, map (λ j, bool_decide (Z.of_nat j < L)%Z) (seq 0 maxlen)) lengths.

(** Modelled from the spec: the base class of the mechanism (its
    constructor and its masking helper) is not in models/attention.py.
    The spec says that positions beyond a row's valid length are
    "excluded from normalization / masked to zero influence" whichever
    normalization is used.  The base class does so by overwriting the
    energy at those positions with the score mask value, -inf by default,
    before the normalization function sees it; the sequence lengths are
    asserted to be positive. *)
Definition _maybe_mask_score (e : Tensor tensor2)
    (memory_sequence_length : option (list Z)) : result (Tensor stensor2) :=
  match memory_sequence_length with
  | None => Ok (mkTensor (t_dtype e) (map (map Fin) (t_val e)))
  | Some lengths =>
      if decide (Forall (λ L, 0 < L)%Z lengths)
      then
        let score_mask := sequence_mask lengths (length (hd [] (t_val e))) in
        if decide (length score_mask = length (t_val e))
        then Ok (mkTensor (t_dtype e)
                   (zip_with (zip_with (λ (m : bool) x, if m then Fin x else NegInf))
                             score_mask (t_val e)))
        else Err ShapeError
      else Err AssertionError
  end.

Record BahdanauAttention := mkBahdanau {
  query_layer : option Dense;
  keys : Tensor tensor3;
  _probability_fn : Tensor tensor2 → Tensor tensor2 → result (Tensor tensor2);
}.

(** Modelled from the spec: the inherited constructor.  It keeps the query
    projection and the processed memory keys (computed once per memory),
    and wraps the normalization function ([None] selects softmax) so that
    it is applied to the masked energy; the previous alignment is passed
    along and ignored. *)
Definition BahdanauAttention_init (query_layer : option Dense)
    (keys : Tensor tensor3) (memory_sequence_length : option (list Z))
    (probability_fn : option (Tensor stensor2 → result (Tensor tensor2)))
    : BahdanauAttention :=
  let probability_fn := default softmax probability_fn in
  mkBahdanau query_layer keys
    (λ e prev, masked ← _maybe_mask_score e memory_sequence_length;
               probability_fn masked).

(** ** LocationSensitiveAttention *)

Record Hparams := mkHparams {
  attention_filters : nat;
  attention_kernel : nat;
}.

Record LocationSensitiveAttention := mkLSA {
  base : BahdanauAttention;
  location_convolution : Conv1D;
  location_layer : Dense;
}.

(** The learned kernels of the layers built by the constructor; the
    layers own them and use the same ones at every call. *)
Record Kernels := mkKernels {
  location_convolution_kernel : Tensor tensor3;
  location_layer_kernel : Tensor tensor2;
}.

Definition __init__ (hparams : Hparams) (kernels : Kernels)
    (num_units : nat) (query_layer : option Dense) (keys : Tensor tensor3)
    (memory_sequence_length : option (list Z)) (smoothing : bool)
    : LocationSensitiveAttention :=
  let normalization_function :=
    if smoothing then Some _smoothing_normalization else None in
  mkLSA
    (BahdanauAttention_init query_layer keys memory_sequence_length
                            normalization_function)
    (mkConv1D (attention_filters hparams) (attention_kernel hparams)
              (location_convolution_kernel kernels))
    (mkDense num_units (location_layer_kernel kernels)).

(** The layers are applied to their kernels as pure functions; of the
    variables, only [v_a] goes through the store (see the head of the
    file). *)
Definition __call__ (self : LocationSensitiveAttention)
    (query state : Tensor tensor2) : M (Tensor tensor2 * Tensor tensor2) :=
  let previous_alignments := state in
  energy ← variable_scope "Location_Sensitive_Attention" (
    processed_query ← lift (match query_layer (base self) with
                            | Some l => dense2 l query
                            | None => Ok query
                            end);
    let processed_query := expand_dims_1 processed_query in
    let expanded_alignments := expand_dims_2 previous_alignments in
    f ← lift (conv1d (location_convolution self) expanded_alignments);
    processed_location_features ← lift (dense3 (location_layer self) f);
    _location_sensitive_score processed_query processed_location_features
                              (keys (base self)));
  alignments ← lift (_probability_fn (base self) energy previous_alignments);
  let next_state := alignments in
  mret (alignments, next_state).

(** ** Valid calls

    Position [j] of batch row [b] is within the declared length of that
    row (every position is, when no lengths were given). *)
Definition valid_pos (memory_sequence_length : option (list Z)) (b j : nat) : bool :=
  match memory_sequence_length with
  | None => true
  | Some lengths => bool_decide (Z.of_nat j < nth b lengths 0%Z)%Z
  end.

(** The shapes and dtypes of a call that the tensor library accepts:
    batch [B], source length [T], [U] units, query depth [Dq], [F] filters
    of width [K]; and a store in which the call can obtain [v_a]. *)
Record valid_call (B T U Dq F K : nat) (hparams : Hparams) (kernels : Kernels)
    (query_layer : option Dense) (keys : Tensor tensor3)
    (memory_sequence_length : option (list Z))
    (query state : Tensor tensor2) (st : VarStore) : Prop := mkValid {
  vc_batch : 0 < B;
  vc_time : 0 < T;
  vc_query : has_shape2 B Dq (t_val query) ∧ t_dtype query = float32;
  vc_state : has_shape2 B T (t_val state) ∧ t_dtype state = float32;
  vc_query_layer :
    match query_layer with
    | Some l => units l = U ∧ has_shape2 Dq U (t_val (dense_kernel l))
                ∧ t_dtype (dense_kernel l) = float32
    | None => Dq = U
    end;
  vc_keys : has_shape3 B T U (t_val keys) ∧ t_dtype keys = float32;
  vc_hparams : attention_kernel hparams = K ∧ attention_filters hparams = F ∧ 0 < K;
  vc_conv : has_shape3 K 1 F (t_val (location_convolution_kernel kernels))
            ∧ t_dtype (location_convolution_kernel kernels) = float32;
  vc_location : has_shape2 F U (t_val (location_layer_kernel kernels))
                ∧ t_dtype (location_layer_kernel kernels) = float32;
  vc_lengths :
    match memory_sequence_length with
    | Some lengths => length lengths = B ∧ Forall (λ L, 0 < L)%Z lengths
    | None => True
    end;
  vc_store :
    ∃ v st', get_variable "v_a" [U] float32
               (enter_scope "Location_Sensitive_Attention" st) = (Ok v, st');
}.

(** ** A small configuration

    One batch row, two source positions, two units, query depth one, one
    filter of width three; a graph in which nothing has been created yet. *)
Definition ex_hparams : Hparams := mkHparams 1 3.

Definition ex_kernels : Kernels :=
  mkKernels (mkTensor float32 [[[1%R]]; [[0%R]]; [[1%R]]])
            (mkTensor float32 [[1%R; 0%R]]).

Definition ex_query_layer : option Dense :=
  Some (mkDense 2 (mkTensor float32 [[1%R; 1%R]])).

Definition ex_keys : Tensor tensor3 :=
  mkTensor float32 [[[0%R; 0%R]; [0%R; 0%R]]].

Definition ex_query : Tensor tensor2 := mkTensor float32 [[1%R]].

Definition ex_state : Tensor tensor2 := mkTensor float32 [[1%R; 0%R]].

Definition fresh_store : VarStore :=
  mkStore ∅ ∅ "" NoReuse
    (λ name _, if decide (name = "Location_Sensitive_Attention/v_a")
               then 1%R else 2%R).

(** Another graph: calls are made inside a scope named decoder, opened
    with AUTO_REUSE, and new variables start as all ones. *)
Definition decoder_store : VarStore :=
  mkStore ∅ ∅ "decoder" AutoReuse (λ _ _, 1%R).




(** ** The energy formula of the docstring

    energy = dot(v_a, tanh(W_keys(h_enc) + W_query(h_dec) + W_fil(f))),
    written entry by entry; the query has a single row per batch entry. *)
Definition at3 (x : tensor3) (b t u : nat) : R :=
  nth u (nth t (nth b x []) []) 0%R.

Definition energy_at (v_a : tensor1) (W_query W_fil W_keys : tensor3)
    (b t : nat) : R :=
  sum_R (map (λ u, (nth u v_a 0 *
                    tanh (at3 W_keys b t u + at3 W_query b 0 u + at3 W_fil b t u))%R)
             (seq 0 (length v_a))).

(** Shape side conditions on concrete tensors. *)
Ltac solve_shapes := repeat split; repeat constructor.

(** * Properties *)

(** ** Lists, [mapM] and broadcasting *)

Lemma mapM_Ok {A B} (f : A → result B) (g : A → B) (l : list A) :
  (∀ x, x ∈ l → f x = Ok (g x)) → mapM f l = Ok (map g l).
Proof.
  induction l as [|a l IH]; intros Hf; [done|].
  cbn. rewrite (Hf a) by left. cbn.
  rewrite IH by (intros x Hx; apply Hf; by right). done.
Qed.

Lemma bcast_stretch_r {A B C} (f : A → B → result C) (g : A → B → C) xs y :
  (∀ x, x ∈ xs → f x y = Ok (g x y)) →
  bcast f xs [y] = Ok (map (λ x, g x y) xs).
Proof.
  intros Hf. destruct xs as [|x [|x' xs]]; cbn.
  - done.
  - rewrite (Hf x) by left. done.
  - change (mapM (λ x0, f x0 y) (x :: x' :: xs)
            = Ok (map (λ x0, g x0 y) (x :: x' :: xs))).
    by apply mapM_Ok.
Qed.

Lemma bcast_stretch_l {A B C} (f : A → B → result C) (g : A → B → C) x ys :
  (∀ y, y ∈ ys → f x y = Ok (g x y)) →
  bcast f [x] ys = Ok (map (g x) ys).
Proof. intros Hf. cbn. by apply mapM_Ok. Qed.

Lemma mapM_zip_Ok {A B C} (f : A → B → result C) (g : A → B → C) xs ys :
  (∀ i x y, xs !! i = Some x → ys !! i = Some y → f x y = Ok (g x y)) →
  mapM (λ p, f p.1 p.2) (zip xs ys) = Ok (zip_with g xs ys).
Proof.
  revert ys. induction xs as [|x xs IH]; intros [|y ys] Hf; try done.
  cbn. rewrite (Hf 0 x y) by done. cbn.
  rewrite IH; [done|]. intros i ? ? ? ?. by apply (Hf (S i)).
Qed.

Lemma bcast_zip {A B C} (f : A → B → result C) (g : A → B → C) xs ys :
  length xs = length ys →
  (∀ i x y, xs !! i = Some x → ys !! i = Some y → f x y = Ok (g x y)) →
  bcast f xs ys = Ok (zip_with g xs ys).
Proof.
  intros Hlen Hf. unfold bcast.
  destruct xs as [|x [|x' xs]].
  - destruct ys; [done | discriminate].
  - destruct ys as [|y [|? ?]]; try discriminate.
    cbn. rewrite (Hf 0 x y) by done. done.
  - destruct ys as [|y [|y' ys]]; try discriminate.
    rewrite decide_True by done. by apply mapM_zip_Ok.
Qed.

Lemma nth_map_lt {A B} (f : A → B) l i dA dB :
  i < length l → nth i (map f l) dB = f (nth i l dA).
Proof.
  revert i. induction l as [|a l IH]; intros [|i] Hi; cbn in *; try lia; [done|].
  apply IH. lia.
Qed.

Lemma nth_zip_with_lt {A B C} (f : A → B → C) xs ys i dA dB dC :
  i < length xs → i < length ys →
  nth i (zip_with f xs ys) dC = f (nth i xs dA) (nth i ys dB).
Proof.
  revert ys i. induction xs as [|x xs IH]; intros [|y ys] [|i] ? ?;
    cbn in *; try lia; [done|].
  apply IH; lia.
Qed.

Lemma nth_seq_lt i n d : i < n → nth i (seq 0 n) d = i.
Proof. intros. by rewrite seq_nth. Qed.

(** A list is the table of its entries. *)
Lemma list_tabulate {A} (l : list A) (g : nat → A) n d :
  length l = n → (∀ i, i < n → nth i l d = g i) → l = map g (seq 0 n).
Proof.
  intros Hn Hg. apply (nth_ext _ _ d (g 0)).
  - by rewrite length_map, length_seq.
  - intros i Hi. rewrite Hn in Hi.
    rewrite (nth_map_lt g _ i 0) by (by rewrite length_seq).
    rewrite nth_seq_lt by done. by apply Hg.
Qed.

Lemma Forall_nth_lt {A} (P : A → Prop) l i d :
  Forall P l → i < length l → P (nth i l d).
Proof.
  intros HP Hi. rewrite Forall_forall in HP. apply HP.
  apply list_elem_of_In. by apply nth_In.
Qed.

Lemma has_shape2_nth n m x i :
  has_shape2 n m x → i < n → length (nth i x []) = m.
Proof. intros [Hn Hx] Hi. apply (Forall_nth_lt _ x i []) in Hx; [done|lia]. Qed.

Lemma has_shape3_nth n m k x i :
  has_shape3 n m k x → i < n → has_shape2 m k (nth i x []).
Proof. intros [Hn Hx] Hi. apply (Forall_nth_lt _ x i []) in Hx; [done|lia]. Qed.

(** ** Broadcasting on well-shaped tensors *)

Lemma bcast1_same f (x y : tensor1) :
  length x = length y → bcast1 f x y = Ok (zip_with f x y).
Proof. intros. by apply bcast_zip. Qed.

Lemma bcast2_same f n m (x y : tensor2) :
  has_shape2 n m x → has_shape2 n m y →
  bcast2 f x y = Ok (zip_with (zip_with f) x y).
Proof.
  intros [Hx1 Hx2] [Hy1 Hy2]. apply bcast_zip; [congruence|].
  intros i r r' Hr Hr'. apply bcast1_same.
  rewrite (Forall_lookup_1 _ _ _ _ Hx2 Hr), (Forall_lookup_1 _ _ _ _ Hy2 Hr'). done.
Qed.

Lemma bcast3_same f n m k (x y : tensor3) :
  has_shape3 n m k x → has_shape3 n m k y →
  bcast3 f x y = Ok (zip_with (zip_with (zip_with f)) x y).
Proof.
  intros [Hx1 Hx2] [Hy1 Hy2]. apply bcast_zip; [congruence|].
  intros i r r' Hr Hr'. apply (bcast2_same f m k).
  - exact (Forall_lookup_1 _ _ _ _ Hx2 Hr).
  - exact (Forall_lookup_1 _ _ _ _ Hy2 Hr').
Qed.

(** [B, T, U] combined with [B, 1, U]: the single row is used at every
    position of the middle axis. *)
Lemma bcast3_middle f n m k (x y : tensor3) :
  has_shape3 n m k x → has_shape3 n 1 k y →
  bcast3 f x y
  = Ok (zip_with (λ xr yr, map (λ r, zip_with f r (nth 0 yr [])) xr) x y).
Proof.
  intros [Hx1 Hx2] [Hy1 Hy2]. apply bcast_zip; [congruence|].
  intros i xr yr Hxr Hyr.
  destruct (Forall_lookup_1 _ _ _ _ Hx2 Hxr) as [Hm Hxr2].
  destruct (Forall_lookup_1 _ _ _ _ Hy2 Hyr) as [H1 Hyr2].
  destruct yr as [|y0 [|? ?]]; try discriminate. cbn [nth].
  apply (bcast_stretch_r (bcast1 f) (zip_with f)).
  intros r Hr. apply bcast1_same.
  rewrite Forall_forall in Hxr2. rewrite (Hxr2 r Hr).
  symmetry. exact (Forall_inv Hyr2).
Qed.

(** [U] combined with [B, T, U]. *)
Lemma bcast3_vector f k (v : tensor1) (x : tensor3) :
  Forall (Forall (has_shape1 k)) x → length v = k →
  bcast3 f [[v]] x = Ok (map (map (zip_with f v)) x).
Proof.
  intros Hx Hv.
  apply (bcast_stretch_l (bcast2 f) (λ _ xr, map (zip_with f v) xr)).
  intros xr Hxr.
  apply (bcast_stretch_l (bcast1 f) (zip_with f)). intros r Hr.
  apply bcast1_same. rewrite Forall_forall in Hx.
  specialize (Hx xr Hxr). rewrite Forall_forall in Hx.
  rewrite (Hx r Hr). done.
Qed.

Lemma has_shape3_rows n m k (x : tensor3) :
  has_shape3 n m k x → Forall (Forall (has_shape1 k)) x.
Proof.
  intros [_ Hx]. eapply Forall_impl; [exact Hx|]. by intros r [_ ?].
Qed.

Lemma at3_zip_same f (x y : tensor3) n m k b t u :
  has_shape3 n m k x → has_shape3 n m k y → b < n → t < m → u < k →
  at3 (zip_with (zip_with (zip_with f)) x y) b t u = f (at3 x b t u) (at3 y b t u).
Proof.
  intros Hx Hy Hb Ht Hu. unfold at3.
  pose proof (has_shape3_nth _ _ _ _ b Hx Hb) as Hxb.
  pose proof (has_shape3_nth _ _ _ _ b Hy Hb) as Hyb.
  pose proof (has_shape2_nth _ _ _ t Hxb Ht) as Hxt.
  pose proof (has_shape2_nth _ _ _ t Hyb Ht) as Hyt.
  destruct Hx as [Hx _], Hy as [Hy _], Hxb as [Hxb _], Hyb as [Hyb _].
  rewrite (nth_zip_with_lt _ x y b [] []) by lia.
  rewrite (nth_zip_with_lt _ _ _ t [] []) by lia.
  rewrite (nth_zip_with_lt _ _ _ u 0%R 0%R) by (unfold has_shape1 in *; lia).
  done.
Qed.

Lemma at3_zip_middle f (x y : tensor3) n m k b t u :
  has_shape3 n m k x → has_shape3 n 1 k y → b < n → t < m → u < k →
  at3 (zip_with (λ xr yr, map (λ r, zip_with f r (nth 0 yr [])) xr) x y) b t u
  = f (at3 x b t u) (at3 y b 0 u).
Proof.
  intros Hx Hy Hb Ht Hu. unfold at3.
  pose proof (has_shape3_nth _ _ _ _ b Hx Hb) as Hxb.
  pose proof (has_shape3_nth _ _ _ _ b Hy Hb) as Hyb.
  pose proof (has_shape2_nth _ _ _ t Hxb Ht) as Hxt.
  pose proof (has_shape2_nth _ _ _ 0 Hyb ltac:(lia)) as Hyt.
  destruct Hx as [Hx _], Hy as [Hy _], Hxb as [Hxb _].
  rewrite (nth_zip_with_lt _ x y b [] []) by lia.
  rewrite (nth_map_lt _ _ t []) by lia.
  rewrite (nth_zip_with_lt _ _ _ u 0%R 0%R) by (unfold has_shape1 in *; lia).
  done.
Qed.

Lemma Forall_zip_with2 {A B C} (f : A → B → C) (P : A → Prop) (Q : B → Prop)
    (S : C → Prop) (l : list A) (k : list B) :
  Forall P l → Forall Q k → (∀ x y, P x → Q y → S (f x y)) →
  Forall S (zip_with f l k).
Proof.
  intros Hl. revert k. induction Hl as [|x l Hx Hl IH]; intros k Hk HS; [constructor|].
  destruct Hk as [|y k Hy Hk]; cbn; constructor; auto.
Qed.

Lemma zip_with_shape3 f n m k (x y : tensor3) :
  has_shape3 n m k x → has_shape3 n m k y →
  has_shape3 n m k (zip_with (zip_with (zip_with f)) x y).
Proof.
  intros [Hx1 Hx2] [Hy1 Hy2]. split.
  - rewrite length_zip_with. lia.
  - apply (Forall_zip_with2 _ _ _ _ _ _ Hx2 Hy2).
    intros xr yr [Hxr1 Hxr2] [Hyr1 Hyr2]. split.
    + rewrite length_zip_with. lia.
    + apply (Forall_zip_with2 _ _ _ _ _ _ Hxr2 Hyr2).
      intros r r' Hr Hr'. unfold has_shape1 in *. rewrite length_zip_with. lia.
Qed.

Lemma zip_middle_shape3 f n m k (x y : tensor3) :
  has_shape3 n m k x → has_shape3 n 1 k y →
  has_shape3 n m k
    (zip_with (λ xr yr, map (λ r, zip_with f r (nth 0 yr [])) xr) x y).
Proof.
  intros [Hx1 Hx2] [Hy1 Hy2]. split.
  - rewrite length_zip_with. lia.
  - apply (Forall_zip_with2 _ _ _ _ _ _ Hx2 Hy2).
    intros xr yr [Hxr1 Hxr2] Hyr. split.
    + by rewrite length_map.
    + pose proof (has_shape2_nth _ _ _ 0 Hyr ltac:(lia)) as Hy0.
      apply Forall_map. eapply Forall_impl; [exact Hxr2|].
      intros r Hr. unfold has_shape1 in *. cbn. rewrite length_zip_with. lia.
Qed.

Lemma map3_shape3 (f : R → R) n m k (x : tensor3) :
  has_shape3 n m k x → has_shape3 n m k (map (map (map f)) x).
Proof.
  intros [Hx1 Hx2]. split; [by rewrite length_map|].
  apply Forall_map. eapply Forall_impl; [exact Hx2|].
  intros xr [Hxr1 Hxr2]. split; [by rewrite length_map|].
  apply Forall_map. eapply Forall_impl; [exact Hxr2|].
  intros r Hr. unfold has_shape1 in *. cbn. by rewrite length_map.
Qed.

Lemma at3_map (f : R → R) n m k (x : tensor3) b t u :
  has_shape3 n m k x → b < n → t < m → u < k →
  at3 (map (map (map f)) x) b t u = f (at3 x b t u).
Proof.
  intros Hx Hb Ht Hu. unfold at3.
  pose proof (has_shape3_nth _ _ _ _ b Hx Hb) as Hxb.
  pose proof (has_shape2_nth _ _ _ t Hxb Ht) as Hxt.
  destruct Hx as [Hx _], Hxb as [Hxb _].
  rewrite (nth_map_lt _ x b []) by lia.
  rewrite (nth_map_lt _ _ t []) by lia.
  rewrite (nth_map_lt _ _ u 0%R) by lia. done.
Qed.

(** ** The score function *)

Lemma last_dim3_shape n k (x : tensor3) :
  has_shape3 n 1 k x → 0 < n → last_dim3 x = k.
Proof.
  intros Hx Hn. unfold last_dim3.
  pose proof (has_shape3_nth _ _ _ _ 0 Hx Hn) as Hx0.
  pose proof (has_shape2_nth _ _ _ 0 Hx0 ltac:(lia)) as Hx00.
  destruct x as [|x0 x]; cbn in *; [destruct Hx; cbn in *; lia|].
  destruct x0 as [|r x0]; cbn in *; done.
Qed.

(** The tensor part of the score function, once [v_a] has been read. *)
Lemma score_tensor_ok B T U (W_query W_fil W_keys : Tensor tensor3)
    (v_a : Tensor tensor1) :
  has_shape3 B 1 U (t_val W_query) →
  has_shape3 B T U (t_val W_fil) →
  has_shape3 B T U (t_val W_keys) →
  t_dtype W_query = float32 → t_dtype W_fil = float32 →
  t_dtype W_keys = float32 → t_dtype v_a = float32 →
  (B = 0 ∨ length (t_val v_a) = U) →
  ∃ e : tensor2,
    (s ← tf_add3 W_keys W_query;
     s ← tf_add3 s W_fil;
     th ← tf_tanh s;
     p ← tf_mul_1_3 v_a th;
     Ok (reduce_sum_axis2 p)) = Ok (mkTensor float32 e)
    ∧ has_shape2 B T e
    ∧ ∀ b t, b < B → t < T →
        nth t (nth b e []) 0%R
        = energy_at (t_val v_a) (t_val W_query) (t_val W_fil) (t_val W_keys) b t.
Proof.
  destruct W_query as [dq q], W_fil as [dl l], W_keys as [dk k], v_a as [dv v].
  cbn [t_val t_dtype]. intros Hq Hl Hk -> -> -> -> Hv.
  set (s1 := zip_with (λ xr yr, map (λ r, zip_with Rplus r (nth 0 yr [])) xr) k q).
  set (s2 := zip_with (zip_with (zip_with Rplus)) s1 l).
  set (th := map (map (map tanh)) s2).
  assert (Hs1 : has_shape3 B T U s1) by (by apply zip_middle_shape3).
  assert (Hs2 : has_shape3 B T U s2) by (by apply zip_with_shape3).
  assert (Hth : has_shape3 B T U th) by (by apply map3_shape3).
  assert (Hrows : Forall (Forall (has_shape1 (length v))) th).
  { destruct Hv as [-> | ->]; [|by eapply has_shape3_rows].
    destruct Hth as [Hth0 _]. destruct th; [constructor | discriminate]. }
  exists (map (map sum_R) (map (map (zip_with Rmult v)) th)).
  split; [|split].
  - unfold tf_add3, binop; cbn [t_dtype t_val].
    rewrite decide_True by done.
    rewrite (bcast3_middle Rplus B T U) by done. cbn.
    rewrite (bcast3_same Rplus B T U) by done. cbn.
    rewrite decide_True by done. cbn.
    unfold tf_mul_1_3, binop; cbn [t_dtype t_val].
    rewrite decide_True by done.
    rewrite (bcast3_vector Rmult (length v)) by done. done.
  - destruct Hth as [Hth1 Hth2]. split; [by rewrite !length_map|].
    rewrite !Forall_map. eapply Forall_impl; [exact Hth2|].
    intros xr [Hxr _]. unfold has_shape1. cbn. by rewrite !length_map.
  - intros b t Hb Ht.
    assert (Hlen : length v = U) by (destruct Hv; [lia | done]).
    pose proof (has_shape3_nth _ _ _ _ b Hth Hb) as Hthb.
    pose proof (has_shape2_nth _ _ _ t Hthb Ht) as Hthbt.
    destruct Hth as [Hth1 _], Hthb as [Hthb1 _].
    rewrite (nth_map_lt _ _ b []) by (rewrite length_map; lia).
    rewrite (nth_map_lt _ _ b []) by lia.
    rewrite (nth_map_lt _ _ t []) by (rewrite length_map; lia).
    rewrite (nth_map_lt _ _ t []) by lia.
    unfold energy_at. f_equal.
    apply (list_tabulate _ _ _ 0%R).
    { rewrite length_zip_with. unfold has_shape1 in *. lia. }
    intros u Hu.
    rewrite (nth_zip_with_lt _ _ _ u 0%R 0%R) by (unfold has_shape1 in *; lia).
    f_equal.
    change (nth u (nth t (nth b th []) []) 0%R) with (at3 th b t u).
    unfold th. rewrite (at3_map tanh B T U) by (done || lia). f_equal.
    unfold s2. rewrite (at3_zip_same Rplus _ _ B T U) by (done || lia). f_equal.
    unfold s1. rewrite (at3_zip_middle Rplus _ _ B T U) by (done || lia). done.
Qed.

Lemma M_bind_Ok {A B} (m : M A) (f : A → M B) st a st' :
  m st = (Ok a, st') → (m ≫= f) st = f a st'.
Proof. intros H. unfold mbind, M_bind. by rewrite H. Qed.

Lemma get_variable_Ok name shape dtype st v st' :
  get_variable name shape dtype st = (Ok v, st') →
  t_dtype v = dtype ∧ length (t_val v) = numel shape.
Proof.
  unfold get_variable.
  destruct (vs_vars st !! full_name (vs_scope_name st) name) as [w|].
  - destruct (vs_reuse st); [discriminate| |];
      (case_decide as Hw; [|discriminate]); destruct Hw as [Hs Hd];
      intros [= <- <-]; cbn; by rewrite length_map, length_seq, Hs.
  - destruct (vs_reuse st); [|discriminate|];
      intros [= <- <-]; cbn; by rewrite length_map, length_seq.
Qed.

Lemma score_ok B T U (W_query W_fil W_keys : Tensor tensor3)
    (st st' : VarStore) (v_a : Tensor tensor1) :
  has_shape3 B 1 U (t_val W_query) →
  has_shape3 B T U (t_val W_fil) →
  has_shape3 B T U (t_val W_keys) →
  t_dtype W_query = float32 → t_dtype W_fil = float32 →
  t_dtype W_keys = float32 →
  get_variable "v_a" [last_dim3 (t_val W_query)] float32 st = (Ok v_a, st') →
  ∃ energy : Tensor tensor2,
    _location_sensitive_score W_query W_fil W_keys st = (Ok energy, st')
    ∧ t_dtype energy = float32
    ∧ has_shape2 B T (t_val energy)
    ∧ (0 < B → length (t_val v_a) = U)
    ∧ ∀ b t, b < B → t < T →
        nth t (nth b (t_val energy) []) 0%R
        = sum_R (map (λ u, (nth u (t_val v_a) 0 *
                            tanh (at3 (t_val W_keys) b t u
                                  + at3 (t_val W_query) b 0 u
                                  + at3 (t_val W_fil) b t u))%R)
                     (seq 0 (length (t_val v_a)))).
Proof.
  intros Hq Hl Hk Hdq Hdl Hdk Hget.
  destruct (get_variable_Ok _ _ _ _ _ _ Hget) as [Hdv Hlen].
  assert (HU : 0 < B → length (t_val v_a) = U).
  { intros HB. rewrite Hlen. cbn. rewrite (last_dim3_shape B U) by done. lia. }
  destruct (score_tensor_ok B T U W_query W_fil W_keys v_a)
    as (e & He & Hshape & Hval); try done.
  { destruct B; [by left | right; apply HU; lia]. }
  exists (mkTensor float32 e). split; [|done].
  unfold _location_sensitive_score.
  rewrite (M_bind_Ok _ _ _ _ _ Hget). unfold lift. by rewrite He.
Qed.

(** ** The layers *)

Lemma mapM_Ok_ex {A B} (f : A → result B) (P : B → Prop) (l : list A) :
  (∀ x, x ∈ l → ∃ y, f x = Ok y ∧ P y) →
  ∃ ys, mapM f l = Ok ys ∧ length ys = length l ∧ Forall P ys.
Proof.
  induction l as [|a l IH]; intros Hf.
  - exists []. by repeat split.
  - destruct (Hf a) as (y & Hy & HP); [by left|].
    destruct IH as (ys & Hys & Hlen & HPs); [intros x Hx; apply Hf; by right|].
    exists (y :: ys). cbn. rewrite Hy. cbn. rewrite Hys. cbn.
    repeat split; [by rewrite Hlen | by constructor].
Qed.

Lemma binop_Ok {A B C} (f : A → B → result C) (x : Tensor A) (y : Tensor B) v :
  t_dtype x = t_dtype y → f (t_val x) (t_val y) = Ok v →
  binop f x y = Ok (mkTensor (t_dtype x) v).
Proof. intros Hd Hf. unfold binop. rewrite decide_True by done. by rewrite Hf. Qed.

Lemma vec_mat_ok n (W : tensor2) (x : tensor1) :
  length x = length W → ∃ y, vec_mat n W x = Ok y ∧ has_shape1 n y.
Proof.
  intros Hlen. unfold vec_mat. rewrite decide_True by done.
  eexists; split; [done|]. unfold has_shape1. by rewrite length_map, length_seq.
Qed.

Lemma dense2_ok (l : Dense) (x : Tensor tensor2) B D :
  has_shape2 B D (t_val x) → length (t_val (dense_kernel l)) = D →
  t_dtype x = t_dtype (dense_kernel l) →
  ∃ y, dense2 l x = Ok (mkTensor (t_dtype x) y) ∧ has_shape2 B (units l) y.
Proof.
  intros [HB Hrows] HW Hd.
  destruct (mapM_Ok_ex (vec_mat (units l) (t_val (dense_kernel l)))
              (has_shape1 (units l)) (t_val x)) as (y & Hy & Hlen & Hsh).
  { intros r Hr. apply vec_mat_ok. rewrite Forall_forall in Hrows.
    rewrite (Hrows r Hr). done. }
  exists y. split; [by apply binop_Ok | split; [lia | done]].
Qed.

Lemma dense3_ok (l : Dense) (x : Tensor tensor3) B T D :
  has_shape3 B T D (t_val x) → length (t_val (dense_kernel l)) = D →
  t_dtype x = t_dtype (dense_kernel l) →
  ∃ y, dense3 l x = Ok (mkTensor (t_dtype x) y) ∧ has_shape3 B T (units l) y.
Proof.
  intros [HB Hrows] HW Hd.
  destruct (mapM_Ok_ex (mapM (vec_mat (units l) (t_val (dense_kernel l))))
              (has_shape2 T (units l)) (t_val x)) as (y & Hy & Hlen & Hsh).
  { intros xr Hxr. rewrite Forall_forall in Hrows.
    destruct (Hrows xr Hxr) as [HT Hxr2].
    destruct (mapM_Ok_ex (vec_mat (units l) (t_val (dense_kernel l)))
                (has_shape1 (units l)) xr) as (yr & Hyr & Hlen & Hsh).
    { intros r Hr. apply vec_mat_ok. rewrite Forall_forall in Hxr2.
      rewrite (Hxr2 r Hr). done. }
    exists yr. split; [done | split; [lia | done]]. }
  exists y. split; [by apply binop_Ok | split; [lia | done]].
Qed.

Lemma conv1d_ok (l : Conv1D) (x : Tensor tensor3) B T :
  has_shape3 B T 1 (t_val x) →
  has_shape3 (kernel_size l) 1 (filters l) (t_val (conv_kernel l)) →
  0 < kernel_size l →
  t_dtype x = t_dtype (conv_kernel l) →
  ∃ y, conv1d l x = Ok (mkTensor (t_dtype x) y) ∧ has_shape3 B T (filters l) y.
Proof.
  intros [HB Hrows] HW HK Hd.
  assert (HC : length (hd [] (t_val (conv_kernel l))) = 1).
  { pose proof (has_shape3_nth _ _ _ _ 0 HW HK) as [H0 _].
    by destruct (t_val (conv_kernel l)). }
  destruct (mapM_Ok_ex (conv1d_row l (t_val (conv_kernel l)))
              (has_shape2 T (filters l)) (t_val x)) as (y & Hy & Hlen & Hsh).
  { intros xr Hxr. rewrite Forall_forall in Hrows.
    destruct (Hrows xr Hxr) as [HT Hxr2].
    unfold conv1d_row. rewrite decide_True.
    - eexists; split; [done|]. split.
      + by rewrite length_map, length_seq.
      + apply Forall_map, Forall_forall. intros t _. unfold has_shape1, conv_at.
        cbn. by rewrite length_map, length_seq.
    - split; [by destruct HW|]. by rewrite HC. }
  exists y. split; [by apply binop_Ok | split; [lia | done]].
Qed.

Lemma expand_dims_1_shape (x : Tensor tensor2) B U :
  has_shape2 B U (t_val x) → has_shape3 B 1 U (t_val (expand_dims_1 x)).
Proof.
  intros [HB Hrows]. split; [by cbn; rewrite length_map|].
  cbn. apply Forall_map. eapply Forall_impl; [exact Hrows|].
  intros r Hr. split; [done | by constructor].
Qed.

Lemma expand_dims_2_shape (x : Tensor tensor2) B T :
  has_shape2 B T (t_val x) → has_shape3 B T 1 (t_val (expand_dims_2 x)).
Proof.
  intros [HB Hrows]. split; [by cbn; rewrite length_map|].
  cbn. apply Forall_map. eapply Forall_impl; [exact Hrows|].
  intros r Hr. split; [by cbn; rewrite length_map|].
  apply Forall_map, Forall_forall. by intros.
Qed.

(** ** One call of the mechanism *)

Lemma lift_bind_Ok {A B} (r : result A) (f : A → M B) a st :
  r = Ok a → (lift r ≫= f) st = f a st.
Proof. intros ->. done. Qed.

(** The steps of a valid call: the query projection, the location
    features of the previous alignment, the score of the two against the
    keys, and the probability function applied to that energy, whose
    result is returned twice. *)
Lemma call_steps B T U Dq F K hparams kernels ql ks
    memory_sequence_length smoothing query state st :
  valid_call B T U Dq F K hparams kernels ql ks
             memory_sequence_length query state st →
  let self := __init__ hparams kernels U ql ks memory_sequence_length smoothing in
  ∃ processed_query f processed_location_features energy v st1,
    match ql with Some l => dense2 l query | None => Ok query end
      = Ok processed_query
    ∧ conv1d (location_convolution self) (expand_dims_2 state) = Ok f
    ∧ dense3 (location_layer self) f = Ok processed_location_features
    ∧ get_variable "v_a" [U] float32
        (enter_scope "Location_Sensitive_Attention" st) = (Ok v, st1)
    ∧ _location_sensitive_score (expand_dims_1 processed_query)
        processed_location_features ks
        (enter_scope "Location_Sensitive_Attention" st) = (Ok energy, st1)
    ∧ t_dtype energy = float32 ∧ has_shape2 B T (t_val energy)
    ∧ ∀ a, _probability_fn (base self) energy state = Ok a →
           __call__ self query state st
           = (Ok (a, a),
              exit_scope st st1
                (vs_scope_name (enter_scope "Location_Sensitive_Attention" st))).
Proof.
  intros [HB HT [Hq Hqd] [Hs Hsd] Hql [Hk Hkd] (HK & HF & HK0)
          [Hc Hcd] [Hl Hld] _ (v & st1 & Hget)] self.
  (* the query projection *)
  assert (Hpq : ∃ pq, match ql with
                      | Some l => dense2 l query
                      | None => Ok query
                      end = Ok pq
                      ∧ t_dtype pq = float32 ∧ has_shape2 B U (t_val pq)).
  { destruct ql as [l|].
    - destruct Hql as (Hu & [HWl _] & HWd).
      destruct (dense2_ok l query B Dq) as (y & Hy & Hysh); try done; [congruence|].
      eexists; split; [exact Hy|]. cbn. by rewrite Hqd, <- Hu.
    - subst Dq. by exists query. }
  destruct Hpq as (pq & Hpq & Hpqd & Hpqs).
  (* the location features *)
  destruct (conv1d_ok (location_convolution self) (expand_dims_2 state) B T)
    as (f & Hf & Hfs); cbn [location_convolution self __init__ filters
                            kernel_size conv_kernel].
  { by apply expand_dims_2_shape. }
  { by rewrite HK, HF. }
  { lia. }
  { cbn. congruence. }
  destruct (dense3_ok (location_layer self) (mkTensor (t_dtype (expand_dims_2 state)) f)
              B T F) as (plf & Hplf & Hplfs);
    cbn [location_layer self __init__ units dense_kernel t_val t_dtype].
  { by rewrite <- HF. }
  { by destruct Hl. }
  { cbn. congruence. }
  (* the score *)
  pose proof (expand_dims_1_shape pq B U Hpqs) as Hpq3.
  destruct (score_ok B T U (expand_dims_1 pq)
              (mkTensor (t_dtype (expand_dims_2 state)) plf) ks
              (enter_scope "Location_Sensitive_Attention" st) st1 v)
    as (energy & He & Hed & Hes & _); try done.
  { by rewrite (last_dim3_shape B U). }
  fold self in Hf, Hplf.
  exists pq, (mkTensor (t_dtype (expand_dims_2 state)) f),
         (mkTensor (t_dtype (expand_dims_2 state)) plf), energy, v, st1.
  do 7 (split; [done|]).
  intros a Ha. unfold __call__.
  unfold mbind at 1, M_bind. unfold variable_scope.
  rewrite (lift_bind_Ok _ _ pq) by exact Hpq.
  rewrite (lift_bind_Ok _ _ _ _ Hf).
  rewrite (lift_bind_Ok _ _ _ _ Hplf).
  cbn [base self __init__ keys BahdanauAttention_init t_dtype] in *.
  rewrite He. cbv beta iota.
  rewrite (lift_bind_Ok _ _ a) by exact Ha. done.
Qed.

(** On valid inputs the scored energy exists, has shape [B, T], and the
    call returns whatever the probability function makes of it, twice. *)
Lemma call_ok B T U Dq F K hparams kernels ql ks
    memory_sequence_length smoothing query state st :
  valid_call B T U Dq F K hparams kernels ql ks
             memory_sequence_length query state st →
  let self := __init__ hparams kernels U ql ks memory_sequence_length smoothing in
  ∃ energy v st1,
    get_variable "v_a" [U] float32
      (enter_scope "Location_Sensitive_Attention" st) = (Ok v, st1)
    ∧ t_dtype energy = float32 ∧ has_shape2 B T (t_val energy)
    ∧ ∀ a, _probability_fn (base self) energy state = Ok a →
           __call__ self query state st
           = (Ok (a, a),
              exit_scope st st1
                (vs_scope_name (enter_scope "Location_Sensitive_Attention" st))).
Proof.
  intros Hv self.
  destruct (call_steps B T U Dq F K hparams kernels ql ks memory_sequence_length
              smoothing query state st Hv)
    as (pq & f & plf & energy & v & st1 & _ & _ & _ & Hget & _ & Hd & He & Hcall).
  by exists energy, v, st1.
Qed.

(** ** Normalizing a row of masked scores

    Both normalizations divide a transform [f] of each entry by the sum of
    the transformed row; [f] is non-negative, positive on real scores and
    zero on the mask value. *)
Section normalize.
Local Open Scope R_scope.

Variable f : score → R.
Hypothesis f_nonneg : ∀ s, 0 <= f s.
Hypothesis f_pos : ∀ x, 0 < f (Fin x).
Hypothesis f_masked : f NegInf = 0.

Lemma sum_R_scale (l : list R) (c : R) :
  sum_R (map (λ x, x / c) l) = sum_R l / c.
Proof.
  induction l as [|a l IH]; cbn; [lra|].
  change (foldr Rplus 0 (map (λ x, x / c) l)) with (sum_R (map (λ x, x / c) l)).
  rewrite IH. unfold sum_R. lra.
Qed.

Lemma sum_f_nonneg (row : list score) : 0 <= sum_R (map f row).
Proof.
  induction row as [|s row IH]; cbn; [lra|].
  pose proof (f_nonneg s). unfold sum_R in IH. lra.
Qed.

Lemma elem_le_sum (row : list score) (s : score) :
  s ∈ row → f s <= sum_R (map f row).
Proof.
  induction 1 as [s row | s s' row _ IH]; cbn.
  - pose proof (sum_f_nonneg row). unfold sum_R in *. lra.
  - pose proof (f_nonneg s'). unfold sum_R in *. lra.
Qed.

Lemma sum_f_pos (row : list score) (x : R) :
  Fin x ∈ row → 0 < sum_R (map f row).
Proof.
  intros Hin. pose proof (elem_le_sum row _ Hin). pose proof (f_pos x). lra.
Qed.

Lemma normalized_sum (row : list score) :
  sum_R (map f row) ≠ 0 →
  sum_R (map (λ s, f s / sum_R (map f row)) row) = 1.
Proof.
  intros HS.
  set (S := sum_R (map f row)) in *.
  replace (map (λ s, f s / S) row) with (map (λ x, x / S) (map f row))
    by (by rewrite map_map).
  rewrite sum_R_scale. unfold Rdiv. by apply Rinv_r.
Qed.

Lemma normalized_bounds (row : list score) (s : score) :
  s ∈ row → 0 < sum_R (map f row) →
  0 <= f s / sum_R (map f row) <= 1.
Proof.
  intros Hin HS. pose proof (elem_le_sum row s Hin). pose proof (f_nonneg s).
  split.
  - apply Rmult_le_pos; [done|]. left. by apply Rinv_0_lt_compat.
  - apply (Rmult_le_reg_r (sum_R (map f row))); [done|].
    unfold Rdiv. rewrite Rmult_assoc, Rinv_l by lra. lra.
Qed.

Lemma normalized_pos (row : list score) (x : R) :
  Fin x ∈ row → 0 < f (Fin x) / sum_R (map f row).
Proof.
  intros Hin. apply Rdiv_lt_0_compat; [done|]. by eapply sum_f_pos.
Qed.

Lemma normalized_masked (c : R) : f NegInf / c = 0.
Proof. rewrite f_masked. unfold Rdiv. lra. Qed.

(** A row whose first position is unmasked becomes a distribution: it
    sums to 1, its entries are in [0, 1], zero where the score is masked
    and positive where it is not. *)
Lemma normalized_row (row : list score) (T : nat) :
  length row = T → (∃ x, nth 0 row NegInf = Fin x) → (0 < T)%nat →
  let a := map (λ s, f s / sum_R (map f row)) row in
  sum_R a = 1
  ∧ ∀ j, (j < T)%nat →
      0 <= nth j a 0 <= 1
      ∧ (nth j row NegInf = NegInf → nth j a 0 = 0)
      ∧ (∀ x, nth j row NegInf = Fin x → 0 < nth j a 0).
Proof.
  intros Hlen [x0 Hx0] HT a.
  assert (Hin : ∀ j, (j < T)%nat → nth j row NegInf ∈ row).
  { intros j Hj. apply list_elem_of_In, nth_In. lia. }
  assert (HS : 0 < sum_R (map f row)).
  { apply (sum_f_pos row x0). rewrite <- Hx0. by apply Hin. }
  split.
  - apply normalized_sum. lra.
  - intros j Hj. unfold a.
    rewrite (nth_map_lt _ row j NegInf) by lia.
    split; [|split].
    + apply normalized_bounds; [by apply Hin | done].
    + intros ->. apply normalized_masked.
    + intros x Hx. rewrite Hx. apply normalized_pos.
      rewrite <- Hx. by apply Hin.
Qed.
End normalize.

Lemma exp_s_nonneg s : (0 <= exp_s s)%R.
Proof. destruct s; cbn; [left; apply exp_pos | lra]. Qed.

Lemma sigmoid_bounds x : (0 < sigmoid x < 1)%R.
Proof.
  unfold sigmoid. pose proof (exp_pos (- x)) as He.
  split.
  - apply Rdiv_lt_0_compat; lra.
  - apply (Rmult_lt_reg_r (1 + exp (- x))); [lra|].
    unfold Rdiv. rewrite Rmult_assoc, Rinv_l by lra. lra.
Qed.

Lemma sigmoid_s_nonneg s : (0 <= sigmoid_s s)%R.
Proof. destruct s; cbn; [left; apply sigmoid_bounds | lra]. Qed.

Lemma sigmoid_s_pos x : (0 < sigmoid_s (Fin x))%R.
Proof. apply sigmoid_bounds. Qed.

(** ** Masking and the two normalization functions *)

Lemma maybe_mask_ok (e : Tensor tensor2) memory_sequence_length B T :
  has_shape2 B T (t_val e) → 0 < B →
  match memory_sequence_length with
  | Some lengths => length lengths = B ∧ Forall (λ L, 0 < L)%Z lengths
  | None => True
  end →
  ∃ m : stensor2,
    _maybe_mask_score e memory_sequence_length = Ok (mkTensor (t_dtype e) m)
    ∧ length m = B
    ∧ ∀ b, b < B →
        length (nth b m []) = T
        ∧ ∀ j, j < T →
            nth j (nth b m []) NegInf
            = if valid_pos memory_sequence_length b j
              then Fin (nth j (nth b (t_val e) []) 0%R) else NegInf.
Proof.
  intros He HB Hlens. pose proof He as [HeB Herows].
  destruct memory_sequence_length as [lengths|]; cbn [_maybe_mask_score valid_pos].
  - destruct Hlens as [Hlen Hpos].
    assert (HT : length (hd [] (t_val e)) = T).
    { pose proof (has_shape2_nth _ _ _ 0 He HB). by destruct (t_val e). }
    rewrite decide_True by done. rewrite HT.
    rewrite decide_True by (unfold sequence_mask; rewrite length_map; lia).
    eexists; split; [done|]. split.
    { unfold sequence_mask. rewrite length_zip_with, length_map. lia. }
    intros b Hb. pose proof (has_shape2_nth _ _ _ b He Hb) as Hrow.
    unfold sequence_mask.
    rewrite (nth_zip_with_lt _ _ _ b [] []) by (rewrite ?length_map; lia).
    rewrite (nth_map_lt _ lengths b 0%Z) by lia.
    split.
    { rewrite length_zip_with, length_map, length_seq. lia. }
    intros j Hj.
    rewrite (nth_zip_with_lt _ _ _ j false 0%R)
      by (rewrite ?length_map, ?length_seq; lia).
    rewrite (nth_map_lt _ _ j 0) by (rewrite length_seq; lia).
    rewrite nth_seq_lt by done.
    by destruct (bool_decide _).
  - eexists; split; [done|]. split; [by rewrite length_map|].
    intros b Hb. pose proof (has_shape2_nth _ _ _ b He Hb) as Hrow.
    rewrite (nth_map_lt _ _ b []) by lia.
    split; [by rewrite length_map|]. intros j Hj.
    by rewrite (nth_map_lt _ _ j 0%R) by lia.
Qed.

Lemma valid_pos_first memory_sequence_length B b :
  match memory_sequence_length with
  | Some lengths => length lengths = B ∧ Forall (λ L, 0 < L)%Z lengths
  | None => True
  end →
  b < B → valid_pos memory_sequence_length b 0 = true.
Proof.
  destruct memory_sequence_length as [lengths|]; [|done].
  intros [Hlen Hpos] Hb. cbn. apply bool_decide_eq_true.
  apply (Forall_nth_lt _ lengths b 0%Z) in Hpos; [|lia]. cbn beta in Hpos. lia.
Qed.

Lemma softmax_closed (m : Tensor stensor2) :
  is_floating (t_dtype m) = true →
  softmax m
  = Ok (mkTensor (t_dtype m)
          (map (λ row, map (λ s, (exp_s s / sum_R (map exp_s row))%R) row) (t_val m))).
Proof. intros Hd. unfold softmax. by rewrite Hd. Qed.

Lemma smoothing_closed (m : Tensor stensor2) :
  is_floating (t_dtype m) = true →
  _smoothing_normalization m
  = Ok (mkTensor (t_dtype m)
          (map (λ row, map (λ s, (sigmoid_s s / sum_R (map sigmoid_s row))%R) row)
               (t_val m))).
Proof.
  intros Hd. unfold _smoothing_normalization, tf_sigmoid. rewrite Hd. cbn.
  unfold tf_div2. erewrite binop_Ok; [done | done |]. cbn [t_val reduce_sum_keepdims].
  unfold bcast2.
  erewrite (bcast_zip _ (λ r sr, map (λ x, Rdiv x (nth 0 sr 0%R)) r)).
  - f_equal. induction (t_val m) as [|row rows IH]; [done|].
    cbn. rewrite IH. f_equal. by rewrite map_map.
  - by rewrite !length_map.
  - intros i r sr Hr Hsr. rewrite list_lookup_fmap, Hr in Hsr.
    injection Hsr as <-. cbn [nth].
    apply (bcast_stretch_r (λ a b, Ok (Rdiv a b)) Rdiv). done.
Qed.

(** Rows of masked scores, normalized by [f]. *)
Lemma normalized_rows (f : score → R) (m : stensor2) (e : tensor2)
    memory_sequence_length B T :
  (∀ s, 0 <= f s)%R → (∀ x, 0 < f (Fin x))%R → f NegInf = 0%R →
  0 < T → length m = B →
  (∀ b, b < B → valid_pos memory_sequence_length b 0 = true) →
  (∀ b, b < B →
     length (nth b m []) = T
     ∧ ∀ j, j < T →
         nth j (nth b m []) NegInf
         = if valid_pos memory_sequence_length b j
           then Fin (nth j (nth b e []) 0%R) else NegInf) →
  let a := map (λ row, map (λ s, (f s / sum_R (map f row))%R) row) m in
  has_shape2 B T a
  ∧ ∀ b, b < B →
      sum_R (nth b a []) = 1%R
      ∧ ∀ j, j < T →
          (0 <= nth j (nth b a []) 0 <= 1)%R
          ∧ (valid_pos memory_sequence_length b j = false →
             nth j (nth b a []) 0%R = 0%R)
          ∧ (valid_pos memory_sequence_length b j = true →
             (0 < nth j (nth b a []) 0)%R).
Proof.
  intros Hf1 Hf2 Hf3 HT Hm Hfirst Hrows a. split.
  - split; [by unfold a; rewrite length_map|].
    unfold a. apply Forall_map, Forall_forall. intros row Hrow.
    apply list_elem_of_lookup in Hrow as [b Hb].
    pose proof (lookup_lt_Some _ _ _ Hb) as Hlt.
    destruct (Hrows b ltac:(lia)) as [Hlen _].
    rewrite (nth_lookup_Some _ _ _ _ Hb) in Hlen.
    unfold has_shape1. cbn. by rewrite length_map.
  - intros b Hb. destruct (Hrows b Hb) as [Hlen Hent].
    unfold a. rewrite (nth_map_lt _ m b []) by lia.
    destruct (normalized_row f Hf1 Hf2 Hf3 (nth b m []) T Hlen) as [Hsum Hj];
      [|done|].
    { rewrite (Hent 0 HT), (Hfirst b Hb). eauto. }
    split; [done|]. intros j Hjlt. destruct (Hj j Hjlt) as (H1 & H2 & H3).
    split; [done|]. split.
    + intros Hv. apply H2. by rewrite (Hent j Hjlt), Hv.
    + intros Hv. eapply H3. by rewrite (Hent j Hjlt), Hv.
Qed.

(** What the probability function of a constructed mechanism returns on a
    float32 energy of shape [B, T], under either normalization. *)
Lemma probability_fn_ok hparams kernels U ql ks memory_sequence_length
    smoothing (energy state : Tensor tensor2) B T :
  t_dtype energy = float32 → has_shape2 B T (t_val energy) →
  0 < B → 0 < T →
  match memory_sequence_length with
  | Some lengths => length lengths = B ∧ Forall (λ L, 0 < L)%Z lengths
  | None => True
  end →
  let self := __init__ hparams kernels U ql ks memory_sequence_length smoothing in
  ∃ a : tensor2,
    _probability_fn (base self) energy state = Ok (mkTensor float32 a)
    ∧ has_shape2 B T a
    ∧ ∀ b, b < B →
        sum_R (nth b a []) = 1%R
        ∧ ∀ j, j < T →
            (0 <= nth j (nth b a []) 0 <= 1)%R
            ∧ (valid_pos memory_sequence_length b j = false →
               nth j (nth b a []) 0%R = 0%R)
            ∧ (valid_pos memory_sequence_length b j = true →
               (0 < nth j (nth b a []) 0)%R).
Proof.
  intros Hd He HB HT Hlens self.
  destruct (maybe_mask_ok energy memory_sequence_length B T He HB Hlens)
    as (m & Hm & HmB & Hrows).
  assert (Hfirst : ∀ b, b < B → valid_pos memory_sequence_length b 0 = true)
    by (intros b; by apply valid_pos_first).
  cbn [self __init__ base _probability_fn BahdanauAttention_init].
  rewrite Hm. rewrite Hd. destruct smoothing; cbn [default]; unfold mbind, result_bind.
  - rewrite smoothing_closed by done. eexists; split; [done|].
    apply (normalized_rows sigmoid_s m (t_val energy)); try done.
    + apply sigmoid_s_nonneg.
    + apply sigmoid_s_pos.
  - rewrite softmax_closed by done. eexists; split; [done|].
    apply (normalized_rows exp_s m (t_val energy)); try done.
    + apply exp_s_nonneg.
    + intros x. apply exp_pos.
Qed.

(** The alignments returned by a valid call. *)
Lemma call_alignments B T U Dq F K hparams kernels ql ks
    memory_sequence_length smoothing query state st :
  valid_call B T U Dq F K hparams kernels ql ks
             memory_sequence_length query state st →
  let self := __init__ hparams kernels U ql ks memory_sequence_length smoothing in
  ∃ (a : tensor2) st',
    __call__ self query state st
    = (Ok (mkTensor float32 a, mkTensor float32 a), st')
    ∧ has_shape2 B T a
    ∧ ∀ b, b < B →
        sum_R (nth b a []) = 1%R
        ∧ ∀ j, j < T →
            (0 <= nth j (nth b a []) 0 <= 1)%R
            ∧ (valid_pos memory_sequence_length b j = false →
               nth j (nth b a []) 0%R = 0%R)
            ∧ (valid_pos memory_sequence_length b j = true →
               (0 < nth j (nth b a []) 0)%R).
Proof.
  intros Hv self.
  destruct (call_ok B T U Dq F K hparams kernels ql ks memory_sequence_length
              smoothing query state st Hv)
    as (energy & v & st1 & _ & Hd & He & Hcall).
  destruct (probability_fn_ok hparams kernels U ql ks memory_sequence_length
              smoothing energy state B T Hd He)
    as (a & Ha & Hprops); try by destruct Hv.
  exists a. eexists. split; [by apply Hcall | done].
Qed.

(** ** The small configuration is valid *)

Lemma ex_valid memory_sequence_length :
  match memory_sequence_length with
  | Some lengths => length lengths = 1 ∧ Forall (λ L, 0 < L)%Z lengths
  | None => True
  end →
  valid_call 1 2 2 1 1 3 ex_hparams ex_kernels ex_query_layer ex_keys
             memory_sequence_length ex_query ex_state fresh_store.
Proof.
  intros Hlens. split; try done; try lia; try solve [solve_shapes].
  do 2 eexists. reflexivity.
Qed.


(** ** The pair returned by a call *)

Lemma call_returns_pair self query state st a next_state st' :
  __call__ self query state st = (Ok (a, next_state), st') → next_state = a.
Proof.
  unfold __call__, mbind, M_bind, lift, mret, M_ret.
  destruct (variable_scope _ _ st) as [[energy|e] st1]; [|discriminate].
  destruct (_probability_fn _ energy state); [|discriminate].
  by intros [= <- <- _].
Qed.

(** The result of a call, with the store written out: only the scoring
    vector comes from the store. *)
Lemma call_fst self query state st :
  (__call__ self query state st).1
  = (pq ← match query_layer (base self) with
          | Some l => dense2 l query
          | None => Ok query
          end;
     f ← conv1d (location_convolution self) (expand_dims_2 state);
     plf ← dense3 (location_layer self) f;
     v_a ← (get_variable "v_a" [last_dim3 (t_val (expand_dims_1 pq))] float32
              (enter_scope "Location_Sensitive_Attention" st)).1;
     s ← tf_add3 (keys (base self)) (expand_dims_1 pq);
     s ← tf_add3 s plf;
     th ← tf_tanh s;
     p ← tf_mul_1_3 v_a th;
     alignments ← _probability_fn (base self) (reduce_sum_axis2 p) state;
     Ok (alignments, alignments)).
Proof.
  unfold __call__, variable_scope, _location_sensitive_score.
  unfold mbind, M_bind, lift, mret, M_ret.
  destruct (match query_layer (base self) with
            | Some l => dense2 l query
            | None => Ok query
            end) as [pq|e]; [|done]. cbn [result_bind].
  destruct (conv1d (location_convolution self) (expand_dims_2 state)) as [f|e];
    [|done]. cbn [result_bind].
  destruct (dense3 (location_layer self) f) as [plf|e]; [|done]. cbn [result_bind].
  destruct (get_variable _ _ _ _) as [[v|e] st1]; [|done]. cbn [result_bind fst].
  destruct (tf_add3 (keys (base self)) (expand_dims_1 pq)) as [s1|e]; [|done].
  cbn [result_bind].
  destruct (tf_add3 s1 plf) as [s2|e]; [|done]. cbn [result_bind].
  destruct (tf_tanh s2) as [th|e]; [|done]. cbn [result_bind].
  destruct (tf_mul_1_3 v th) as [p|e]; [|done]. cbn [result_bind].
  by destruct (_probability_fn (base self) (reduce_sum_axis2 p) state).
Qed.

(** ** dtypes through the score function *)

Lemma binop_dtype {A B C} (f : A → B → result C) (x : Tensor A) (y : Tensor B) z :
  binop f x y = Ok z → t_dtype z = t_dtype x ∧ t_dtype x = t_dtype y.
Proof.
  unfold binop. case_decide as Hd; [|discriminate].
  destruct (f (t_val x) (t_val y)); [|discriminate]. by intros [= <-].
Qed.

Lemma tf_tanh_dtype x y : tf_tanh x = Ok y → t_dtype y = t_dtype x.
Proof. unfold tf_tanh. destruct (is_floating _); [|discriminate]. by intros [= <-]. Qed.

(** What [get_variable] does to the store: nothing, or one new variable
    of the requested shape and dtype under the full name. *)
Lemma get_variable_store name shape dtype st r st' :
  get_variable name shape dtype st = (r, st') →
  st' = st
  ∨ (vs_vars st !! full_name (vs_scope_name st) name = None
     ∧ st' = mkStore (<[full_name (vs_scope_name st) name
                        := mkVar shape dtype
                             (vs_init st (full_name (vs_scope_name st) name))]>
                        (vs_vars st))
                     (vs_scope_count st) (vs_scope_name st) (vs_reuse st)
                     (vs_init st)).
Proof.
  unfold get_variable.
  destruct (vs_vars st !! full_name (vs_scope_name st) name) as [w|] eqn:Hw.
  - destruct (vs_reuse st); [by intros [= _ <-]; left| |];
      (case_decide; intros [= _ <-]; by left).
  - destruct (vs_reuse st); [|by intros [= _ <-]; left|];
      (intros [= _ <-]; by right).
Qed.

(** The score function leaves the store that its request for [v_a]
    leaves, whatever happens afterwards. *)
Lemma score_store (W_query W_fil W_keys : Tensor tensor3) st :
  (_location_sensitive_score W_query W_fil W_keys st).2
  = (get_variable "v_a" [last_dim3 (t_val W_query)] float32 st).2.
Proof.
  unfold _location_sensitive_score, mbind at 1, M_bind, lift.
  by destruct (get_variable _ _ _ st) as [[v|e] st'].
Qed.

Lemma score_get_variable_Err (W_query W_fil W_keys : Tensor tensor3) st e st' :
  get_variable "v_a" [last_dim3 (t_val W_query)] float32 st = (Err e, st') →
  _location_sensitive_score W_query W_fil W_keys st = (Err e, st').
Proof.
  intros Hget. unfold _location_sensitive_score, mbind at 1, M_bind.
  by rewrite Hget.
Qed.

(** With a query that is not float32 the tensor part of the score
    function stops at a dtype check: at one of the additions, at [tanh],
    or at the product with the float32 [v_a]. *)
Lemma score_tensor_TypeError B T U (W_query W_fil W_keys : Tensor tensor3)
    (v_a : Tensor tensor1) :
  has_shape3 B 1 U (t_val W_query) →
  has_shape3 B T U (t_val W_fil) →
  has_shape3 B T U (t_val W_keys) →
  t_dtype v_a = float32 → t_dtype W_query ≠ float32 →
  (s ← tf_add3 W_keys W_query;
   s ← tf_add3 s W_fil;
   th ← tf_tanh s;
   p ← tf_mul_1_3 v_a th;
   Ok (reduce_sum_axis2 p)) = Err TypeError.
Proof.
  destruct W_query as [dq q], W_fil as [dl l], W_keys as [dk k], v_a as [dv v].
  cbn [t_val t_dtype]. intros Hq Hl Hk -> Hd.
  unfold tf_add3, binop; cbn [t_dtype t_val].
  destruct (decide (dk = dq)) as [->|Hkq]; [|done].
  rewrite (bcast3_middle Rplus B T U) by done.
  cbn [mbind result_bind t_dtype t_val].
  destruct (decide (dq = dl)) as [<-|Hql]; [|done].
  rewrite (bcast3_same Rplus B T U); [|by apply zip_middle_shape3|done].
  cbn [mbind result_bind t_dtype t_val]. unfold tf_tanh; cbn [t_dtype t_val].
  destruct (is_floating dq); [|done]. cbn [mbind result_bind].
  unfold tf_mul_1_3, binop; cbn [t_dtype t_val].
  by rewrite decide_False by done.
Qed.

(** ** Scope names and the variable store *)

Lemma string_app_assoc (a b c : string) : (a +:+ b) +:+ c = a +:+ (b +:+ c).
Proof.
  induction a as [|x a IH]; [done|].
  change (String x ((a +:+ b) +:+ c) = String x (a +:+ (b +:+ c))).
  by rewrite IH.
Qed.

Lemma prefix_app_slash (s : string) : String.prefix (s +:+ "/") s = false.
Proof.
  induction s as [|x s IH]; [done|].
  change (match Ascii.ascii_dec x x with
          | left _ => String.prefix (s +:+ "/") s
          | right _ => false
          end = false).
  by destruct (Ascii.ascii_dec x x).
Qed.

Lemma full_name_app c a b : full_name c a +:+ b = full_name c (a +:+ b).
Proof.
  unfold full_name. case_decide; [done|].
  by rewrite !string_app_assoc.
Qed.

Lemma full_name_inj c a b : full_name c a = full_name c b → a = b.
Proof.
  unfold full_name. case_decide; [done|].
  intros H1. apply String.app_inj in H1. by apply String.app_inj in H1.
Qed.

Lemma full_name_ne_empty c a : a ≠ "" → full_name c a ≠ "".
Proof.
  unfold full_name. case_decide; [done|]. intros _.
  destruct c; [done | discriminate].
Qed.

Lemma full_name_nested c a b :
  a ≠ "" → full_name (full_name c a) b = full_name c (a +:+ "/" +:+ b).
Proof.
  intros Ha. unfold full_name at 1.
  rewrite decide_False by (by apply full_name_ne_empty).
  apply full_name_app.
Qed.

Lemma enter_scope_first name st :
  variable_scope_count st (full_name (vs_scope_name st) name) = 0 →
  enter_scope name st
  = mkStore (vs_vars st)
            (<[full_name (vs_scope_name st) name := 1]> (vs_scope_count st))
            (full_name (vs_scope_name st) name) (vs_reuse st) (vs_init st).
Proof.
  intros H0. unfold enter_scope, _get_unique_variable_scope.
  rewrite decide_True by done. by rewrite H0.
Qed.

Lemma enter_scope_second name st :
  variable_scope_count st (full_name (vs_scope_name st) name) ≠ 0 →
  variable_scope_count st (full_name (vs_scope_name st) (name +:+ "_1")) = 0 →
  enter_scope name st
  = mkStore (vs_vars st)
            (<[full_name (vs_scope_name st) (name +:+ "_1") := 1]>
               (vs_scope_count st))
            (full_name (vs_scope_name st) (name +:+ "_1"))
            (vs_reuse st) (vs_init st).
Proof.
  intros H0 H1. unfold enter_scope, _get_unique_variable_scope.
  rewrite decide_False by done.
  assert (size (vs_scope_count st) ≠ 0) as Hsize.
  { unfold variable_scope_count in H0.
    destruct (vs_scope_count st !! full_name (vs_scope_name st) name) eqn:Hl;
      [|done].
    by eapply map_size_ne_0_lookup_2. }
  destruct (size (vs_scope_count st)) as [|fuel]; [done|].
  cbn [unique_idx].
  change (pretty 1) with "1".
  change ("_" +:+ "1") with "_1".
  rewrite full_name_app.
  unfold variable_scope_count in H1. rewrite H1.
  rewrite decide_False by lia.
  change (pretty 1) with "1". change ("_" +:+ "1") with "_1".
  unfold variable_scope_count. by rewrite H1.
Qed.

Lemma get_variable_create name shape dtype st :
  vs_vars st !! full_name (vs_scope_name st) name = None →
  vs_reuse st ≠ ReuseTrue →
  get_variable name shape dtype st
  = (Ok (read_variable
           (mkVar shape dtype (vs_init st (full_name (vs_scope_name st) name)))),
     mkStore (<[full_name (vs_scope_name st) name
                := mkVar shape dtype
                     (vs_init st (full_name (vs_scope_name st) name))]>
                (vs_vars st))
             (vs_scope_count st) (vs_scope_name st) (vs_reuse st) (vs_init st)).
Proof.
  intros Hnone Hr. unfold get_variable. rewrite Hnone.
  by destruct (vs_reuse st).
Qed.

Lemma get_variable_None_reuse name shape dtype st v st' :
  vs_vars st !! full_name (vs_scope_name st) name = None →
  get_variable name shape dtype st = (Ok v, st') →
  vs_reuse st ≠ ReuseTrue.
Proof.
  intros Hnone. unfold get_variable. rewrite Hnone.
  by destruct (vs_reuse st).
Qed.

(** ** The search for a unique scope name ends on an unused name

    The loop of the library runs until it finds an index whose name was
    never opened.  The scope counts are a finite map, so it stops within
    [size count] steps: that much fuel is always enough. *)

Lemma unique_idx_scan fuel (count : gmap string nat) name idx :
  idx ≤ unique_idx fuel count name idx ≤ idx + fuel
  ∧ (∀ i, idx ≤ i < unique_idx fuel count name idx →
       0 < default 0 (count !! (name +:+ "_" +:+ pretty i)))
  ∧ (0 < default 0 (count !! (name +:+ "_"
                               +:+ pretty (unique_idx fuel count name idx))) →
     unique_idx fuel count name idx = idx + fuel).
Proof.
  revert idx. induction fuel as [|fuel IH]; intros idx; cbn [unique_idx].
  - split; [lia|]. split; [intros; lia | intros; lia].
  - case_decide as Hused.
    + destruct (IH (S idx)) as (Hr & Hall & Hlast).
      split; [lia|]. split.
      * intros i Hi. destruct (decide (i = idx)) as [->|]; [done|].
        apply Hall. lia.
      * intros HP. rewrite (Hlast HP). lia.
    + split; [lia|]. split; [intros; lia | done].
Qed.

Lemma used_names_bound (count : gmap string nat) name idx n :
  (∀ i, idx ≤ i < idx + n →
     0 < default 0 (count !! (name +:+ "_" +:+ pretty i))) →
  n ≤ size count.
Proof.
  intros Hused.
  set (key := λ i : nat, name +:+ "_" +:+ pretty i).
  assert (Inj (=) (=) key) as Hinj.
  { intros i i' Heq. unfold key in Heq.
    apply String.app_inj in Heq. apply (String.app_inj "_") in Heq.
    by apply pretty_nat_inj in Heq. }
  assert (NoDup (key <$> seq idx n)) as Hnd
    by (apply NoDup_fmap_2; [done | apply NoDup_seq]).
  replace n with (length (key <$> seq idx n))
    by (by rewrite length_fmap, length_seq).
  rewrite <- (size_list_to_set (C := gset string) _ Hnd).
  rewrite <- (size_dom (D := gset string) count).
  apply subseteq_size. intros k Hk.
  apply elem_of_list_to_set, list_elem_of_fmap in Hk as (i & -> & Hi).
  apply elem_of_seq in Hi. specialize (Hused i Hi). unfold key.
  apply elem_of_dom.
  destruct (count !! (name +:+ "_" +:+ pretty i)); [by eexists | cbn in Hused; lia].
Qed.

Lemma unique_idx_unused (count : gmap string nat) name :
  default 0 (count !! (name +:+ "_"
                       +:+ pretty (unique_idx (size count) count name 1))) = 0.
Proof.
  destruct (unique_idx_scan (size count) count name 1) as (Hr & Hall & Hlast).
  destruct (default 0 (count !! (name +:+ "_" +:+ pretty
              (unique_idx (size count) count name 1)))) as [|k] eqn:Hj; [done|].
  exfalso. specialize (Hlast ltac:(lia)).
  assert (S (size count) ≤ size count); [|lia].
  apply (used_names_bound count name 1). intros i Hi.
  destruct (decide (i = unique_idx (size count) count name 1)) as [->|Hne].
  - rewrite Hj. lia.
  - apply Hall. lia.
Qed.

(** The scope that [variable_scope(None, default_name)] enters was never
    opened before under the current scope. *)
Lemma unique_variable_scope_unused prefix st :
  variable_scope_count st
    (full_name (vs_scope_name st) (_get_unique_variable_scope prefix st)) = 0.
Proof.
  unfold _get_unique_variable_scope. case_decide as H0; [done|].
  unfold variable_scope_count. rewrite <- full_name_app.
  apply unique_idx_unused.
Qed.

(** Two calls in a row on the same mechanism, under a scope in which the
    mechanism's scope name was not used before. *)
Lemma two_calls B T U Dq F K hparams kernels ql ks memory_sequence_length
    smoothing query state st :
  valid_call B T U Dq F K hparams kernels ql ks
             memory_sequence_length query state st →
  let self := __init__ hparams kernels U ql ks memory_sequence_length smoothing in
  let n0 := full_name (vs_scope_name st) "Location_Sensitive_Attention" in
  let n1 := full_name (vs_scope_name st) "Location_Sensitive_Attention_1" in
  variable_scope_count st n0 = 0 → variable_scope_count st n1 = 0 →
  vs_vars st !! full_name n0 "v_a" = None →
  vs_vars st !! full_name n1 "v_a" = None →
  ∃ r1 st1 r2 st2,
    __call__ self query state st = (Ok r1, st1)
    ∧ __call__ self query state st1 = (Ok r2, st2)
    ∧ vs_vars st1 !! full_name n0 "v_a"
      = Some (mkVar [U] float32 (vs_init st (full_name n0 "v_a")))
    ∧ vs_vars st1 !! full_name n1 "v_a" = None
    ∧ vs_vars st2 !! full_name n1 "v_a"
      = Some (mkVar [U] float32 (vs_init st (full_name n1 "v_a")))
    ∧ vs_vars st2 !! full_name n0 "v_a" = vs_vars st1 !! full_name n0 "v_a"
    ∧ full_name n0 "v_a" ≠ full_name n1 "v_a".
Proof.
  intros Hv self n0 n1 H0 H1 Hv0 Hv1.
  assert (Hn01 : n0 ≠ n1).
  { intros Heq. by apply full_name_inj in Heq. }
  assert (Hne : full_name n0 "v_a" ≠ full_name n1 "v_a").
  { unfold n0, n1. rewrite !full_name_nested by done.
    intros Heq. by apply full_name_inj in Heq. }
  (* the first call *)
  destruct (call_ok B T U Dq F K hparams kernels ql ks memory_sequence_length
              smoothing query state st Hv)
    as (energy & v & st1' & Hget & Hd & He & Hcall).
  destruct (probability_fn_ok hparams kernels U ql ks memory_sequence_length
              smoothing energy state B T Hd He)
    as (a & Ha & _); try by destruct Hv.
  specialize (Hcall _ Ha).
  rewrite enter_scope_first in Hget, Hcall by done. fold n0 in Hget, Hcall.
  pose proof (λ H, get_variable_None_reuse _ _ _ _ _ _ H Hget) as Hreuse.
  specialize (Hreuse Hv0). cbn [vs_reuse] in Hreuse.
  rewrite get_variable_create in Hget by done.
  cbn [vs_vars vs_scope_count vs_scope_name vs_reuse vs_init] in *.
  injection Hget as _ <-.
  set (st1 := exit_scope st _ n0) in Hcall.
  assert (Hc0 : variable_scope_count st1 n0 ≠ 0).
  { unfold variable_scope_count, st1, exit_scope, close_variable_subscopes.
    cbn [vs_scope_count]. rewrite map_lookup_imap, lookup_insert_eq. cbn.
    by rewrite prefix_app_slash. }
  assert (Hc1 : variable_scope_count st1 n1 = 0).
  { unfold variable_scope_count, st1, exit_scope, close_variable_subscopes.
    cbn [vs_scope_count]. rewrite map_lookup_imap, lookup_insert_ne by done.
    unfold variable_scope_count in H1.
    destruct (vs_scope_count st !! n1) as [k|]; [|done]. cbn in *. subst k.
    by destruct (String.prefix _ _). }
  assert (He2 : enter_scope "Location_Sensitive_Attention" st1
                = mkStore (vs_vars st1) (<[n1 := 1]> (vs_scope_count st1))
                          n1 (vs_reuse st1) (vs_init st1)).
  { by apply enter_scope_second. }
  assert (Hv1' : vs_vars st1 !! full_name n1 "v_a" = None).
  { unfold st1, exit_scope. cbn [vs_vars]. by rewrite lookup_insert_ne. }
  (* the second call *)
  assert (Hv2 : valid_call B T U Dq F K hparams kernels ql ks
                           memory_sequence_length query state st1).
  { destruct Hv. split; try done. rewrite He2. do 2 eexists.
    by apply get_variable_create. }
  destruct (call_ok B T U Dq F K hparams kernels ql ks memory_sequence_length
              smoothing query state st1 Hv2)
    as (energy2 & v2 & st2' & Hget2 & Hd2 & He2' & Hcall2).
  destruct (probability_fn_ok hparams kernels U ql ks memory_sequence_length
              smoothing energy2 state B T Hd2 He2')
    as (a2 & Ha2 & _); try by destruct Hv.
  specialize (Hcall2 _ Ha2). rewrite He2 in Hget2, Hcall2.
  rewrite get_variable_create in Hget2 by done.
  cbn [vs_vars vs_scope_count vs_scope_name vs_reuse vs_init] in *.
  injection Hget2 as _ <-.
  eexists _, st1, _, _. split; [exact Hcall|]. split; [exact Hcall2|].
  unfold st1, exit_scope. cbn [vs_vars].
  split; [by rewrite lookup_insert_eq|]. split; [by rewrite lookup_insert_ne|].
  split; [by rewrite lookup_insert_eq|]. split; [|done].
  by rewrite (lookup_insert_ne _ (full_name n1 "v_a")).
Qed.


(** ** The logistic function at -2, to the precision of binary32

    exp(-1) lies between two consecutive partial sums of its alternating
    series; twelve terms locate sigmoid(-2) = 1 / (1 + e^2) well within
    half a unit in the last place of [sigmoid32_minus_two]. *)

Lemma inv_fact_spec n : (/ INR (fact n))%R = inv_fact n.
Proof.
  induction n as [|n IH]; [cbn; lra|].
  rewrite fact_simpl, mult_INR, Rinv_mult, IH. cbn [inv_fact]. unfold Rdiv. lra.
Qed.

Lemma exp_minus_one_bounds N :
  (sum_f_R0 (λ i, (-1) ^ i * inv_fact i) (S (2 * N)) <= exp (-1)
   <= sum_f_R0 (λ i, (-1) ^ i * inv_fact i) (2 * N))%R.
Proof.
  assert (∀ n, sum_f_R0 (λ i, (-1) ^ i * inv_fact i)%R n
               = sum_f_R0 (tg_alt (λ i, / INR (fact i))%R) n) as Heq.
  { intros n. apply sum_eq. intros i _. unfold tg_alt. by rewrite inv_fact_spec. }
  rewrite !Heq.
  unfold exp. destruct (exist_exp (-1)) as [x e]. cbn [proj1_sig].
  apply alternated_series_ineq.
  - intros n. apply Rinv_le_contravar; [apply INR_fact_lt_0|].
    apply le_INR, fact_le. lia.
  - assert (H0 := cv_speed_pow_fact 1). intros eps Heps.
    destruct (H0 eps Heps) as [n0 Hn0]. exists n0. intros n Hn.
    specialize (Hn0 n Hn). rewrite pow1 in Hn0. unfold Rdiv in Hn0.
    by rewrite Rmult_1_l in Hn0.
  - intros eps Heps. destruct (e eps Heps) as [n0 Hn0]. exists n0. intros n Hn.
    specialize (Hn0 n Hn).
    replace (sum_f_R0 (tg_alt (λ i, / INR (fact i))%R) n)
      with (sum_f_R0 (λ i, / INR (fact i) * (-1) ^ i)%R n); [done|].
    apply sum_eq. intros i _. unfold tg_alt. apply Rmult_comm.
Qed.

Lemma exp_minus_one_lower : (14684570 / 39916800 <= exp (-1))%R.
Proof.
  pose proof (exp_minus_one_bounds 5) as [H _].
  cbn [Nat.mul Nat.add sum_f_R0 inv_fact pow INR] in H. lra.
Qed.

Lemma exp_minus_one_upper : (exp (-1) <= 16019531 / 43545600)%R.
Proof.
  pose proof (exp_minus_one_bounds 6) as [_ H].
  cbn [Nat.mul Nat.add sum_f_R0 inv_fact pow INR] in H. lra.
Qed.

Lemma sigmoid_minus_two_bounds :
  (31998289 / 268435456 < sigmoid (-2) < 31998291 / 268435456)%R.
Proof.
  pose proof exp_minus_one_lower as HL. pose proof exp_minus_one_upper as HU.
  set (t := exp (-1)) in *.
  assert (exp 2 * (t * t) = 1)%R as HE.
  { unfold t. rewrite <- !exp_plus. replace (2 + (-1 + -1))%R with 0%R by lra.
    apply exp_0. }
  unfold sigmoid. replace (- -2)%R with 2%R by lra.
  pose proof (exp_pos 2) as HE0. set (E := exp 2) in *.
  assert (0 < t)%R as Ht by (unfold t; apply exp_pos).
  assert (14684570 / 39916800 * (14684570 / 39916800) <= t * t)%R as HLL
    by (apply Rmult_le_compat; lra).
  assert (t * t <= 16019531 / 43545600 * (16019531 / 43545600))%R as HUU
    by (apply Rmult_le_compat; lra).
  set (q := (t * t)%R) in *.
  assert (0 < q)%R as Hq by lra.
  assert (E = / q)%R as ->.
  { apply (Rmult_eq_reg_r q); [|lra]. rewrite Rinv_l by lra. done. }
  assert (1 / (1 + / q) = q / (q + 1))%R as -> by (field; lra).
  split.
  - apply (Rmult_lt_reg_r (q + 1)); [lra|].
    unfold Rdiv at 2. rewrite Rmult_assoc, Rinv_l by lra. lra.
  - apply (Rmult_lt_reg_r (q + 1)); [lra|].
    unfold Rdiv at 1. rewrite Rmult_assoc, Rinv_l by lra. lra.
Qed.

(** Binary32 numbers between 2^-4 and 2^-3 are 2^-27 apart. *)
Lemma sigmoid32_minus_two_nearest :
  (Rabs (f32_to_R sigmoid32_minus_two - sigmoid (-2)) < / 2 * / IZR (2 ^ 27))%R.
Proof.
  pose proof sigmoid_minus_two_bounds as [Ha Hb].
  unfold sigmoid32_minus_two, f32_to_R. cbv beta iota zeta.
  replace (0 <=? -27)%Z with false by reflexivity.
  replace (2 ^ (- (-27)))%Z with 134217728%Z by reflexivity.
  replace (2 ^ 27)%Z with 134217728%Z by reflexivity.
  apply Rabs_def1; lra.
Qed.

Lemma f32_minus_two_value : f32_to_R f32_minus_two = (-2)%R.
Proof.
  unfold f32_minus_two, f32_to_R. cbv beta iota zeta.
  replace (0 <=? -22)%Z with false by reflexivity.
  replace (2 ^ (- (-22)))%Z with 4194304%Z by reflexivity.
  lra.
Qed.

(** * The claims *)

(** C1: on a float32 processed query of shape [B, 1, U], processed location
    features of shape [B, T, U] and processed keys of shape [B, T, U], in a
    store where [v_a] can be obtained, the score function returns an
    energy of shape [B, T] whose entry (b, t) is the sum over the units
    axis of v_a * tanh(keys[b][t] + query[b][0] + location[b][t]), the
    query being broadcast over the source-length axis. *)
Theorem score_energy B T U (W_query W_fil W_keys : Tensor tensor3)
    (st st' : VarStore) (v_a : Tensor tensor1) :
  has_shape3 B 1 U (t_val W_query) →
  has_shape3 B T U (t_val W_fil) →
  has_shape3 B T U (t_val W_keys) →
  t_dtype W_query = float32 → t_dtype W_fil = float32 →
  t_dtype W_keys = float32 →
  get_variable "v_a" [last_dim3 (t_val W_query)] float32 st = (Ok v_a, st') →
  ∃ energy : Tensor tensor2,
    _location_sensitive_score W_query W_fil W_keys st = (Ok energy, st')
    ∧ has_shape2 B T (t_val energy)
    ∧ (0 < B → length (t_val v_a) = U)
    ∧ ∀ b t, b < B → t < T →
        nth t (nth b (t_val energy) []) 0%R
        = sum_R (map (λ u, (nth u (t_val v_a) 0 *
                            tanh (at3 (t_val W_keys) b t u
                                  + at3 (t_val W_query) b 0 u
                                  + at3 (t_val W_fil) b t u))%R)
                     (seq 0 (length (t_val v_a)))).
Proof.
  intros Hq Hl Hk Hdq Hdl Hdk Hget.
  destruct (score_ok B T U W_query W_fil W_keys st st' v_a)
    as (energy & He & _ & Hrest); try done.
  by exists energy.
Qed.

Lemma score_energy_witness :
  ∃ v_a st' energy,
    _location_sensitive_score (expand_dims_1 (mkTensor float32 [[1%R; 1%R]]))
      ex_keys ex_keys fresh_store = (Ok energy, st')
    ∧ has_shape2 1 2 (t_val energy)
    ∧ (0 < 1 → length (t_val v_a) = 2)
    ∧ ∀ b t, b < 1 → t < 2 →
        nth t (nth b (t_val energy) []) 0%R
        = sum_R (map (λ u, (nth u (t_val v_a) 0 *
                            tanh (at3 (t_val ex_keys) b t u
                                  + at3 [[[1; 1]]] b 0 u
                                  + at3 (t_val ex_keys) b t u))%R)
                     (seq 0 (length (t_val v_a)))).
Proof.
  do 2 eexists.
  apply (score_energy 1 2 2 (expand_dims_1 (mkTensor float32 [[1%R; 1%R]]))
           ex_keys ex_keys fresh_store);
    try reflexivity; solve_shapes.
Defined.



(** C3: on an energy matrix of shape [B, T] the smoothing normalization
    returns a matrix of the same shape whose entry (i, j) is
    sigmoid(e[i][j]) divided by the sum over j of sigmoid(e[i][j]). *)
Theorem smoothing_formula B T (e : Tensor stensor2) :
  is_floating (t_dtype e) = true →
  length (t_val e) = B → Forall (λ row, length row = T) (t_val e) →
  ∃ a : Tensor tensor2,
    _smoothing_normalization e = Ok a
    ∧ has_shape2 B T (t_val a)
    ∧ ∀ i j, i < B → j < T →
        nth j (nth i (t_val a) []) 0%R
        = (sigmoid_s (nth j (nth i (t_val e) []) NegInf)
           / sum_R (map sigmoid_s (nth i (t_val e) [])))%R.
Proof.
  intros Hd HB HT. eexists. split; [by apply smoothing_closed|].
  cbn [t_val]. split.
  - split; [by rewrite length_map|].
    apply Forall_map. eapply Forall_impl; [exact HT|].
    intros row Hrow. unfold has_shape1. cbn. by rewrite length_map.
  - intros i j Hi Hj.
    rewrite (nth_map_lt _ _ i []) by lia.
    rewrite (nth_map_lt _ _ j NegInf); [done|].
    apply (Forall_nth_lt _ _ i []) in HT; [|lia]. cbn beta in HT. lia.
Qed.

Lemma smoothing_formula_witness :
  ∃ a : Tensor tensor2,
    _smoothing_normalization (mkTensor float32 [[Fin 0; Fin 1; NegInf]]) = Ok a
    ∧ has_shape2 1 3 (t_val a)
    ∧ ∀ i j, i < 1 → j < 3 →
        nth j (nth i (t_val a) []) 0%R
        = (sigmoid_s (nth j (nth i [[Fin 0; Fin 1; NegInf]] []) NegInf)
           / sum_R (map sigmoid_s (nth i [[Fin 0; Fin 1; NegInf]] [])))%R.
Proof.
  apply (smoothing_formula 1 3 (mkTensor float32 [[Fin 0; Fin 1; NegInf]]));
    [reflexivity | reflexivity | repeat constructor].
Defined.

(** C4: on valid inputs, a mechanism constructed with smoothing = False
    returns an alignment whose entries are all non-negative and whose
    batch rows each sum to 1. *)
Theorem softmax_alignment B T U Dq F K hparams kernels ql ks
    memory_sequence_length query state st :
  valid_call B T U Dq F K hparams kernels ql ks
             memory_sequence_length query state st →
  ∃ a st',
    __call__ (__init__ hparams kernels U ql ks memory_sequence_length false)
             query state st = (Ok (a, a), st')
    ∧ has_shape2 B T (t_val a)
    ∧ ∀ b, b < B →
        sum_R (nth b (t_val a) []) = 1%R
        ∧ ∀ j, j < T → (0 <= nth j (nth b (t_val a) []) 0)%R.
Proof.
  intros Hv.
  destruct (call_alignments B T U Dq F K hparams kernels ql ks
              memory_sequence_length false query state st Hv)
    as (a & st' & Hcall & Hshape & Hrows).
  exists (mkTensor float32 a), st'. split; [done|]. split; [done|].
  intros b Hb. destruct (Hrows b Hb) as [Hsum Hent]. split; [done|].
  intros j Hj. by destruct (Hent j Hj) as ([? _] & _).
Qed.

Lemma softmax_alignment_witness :
  ∃ a st',
    __call__ (__init__ ex_hparams ex_kernels 2 ex_query_layer ex_keys None false)
             ex_query ex_state fresh_store = (Ok (a, a), st')
    ∧ has_shape2 1 2 (t_val a)
    ∧ ∀ b, b < 1 →
        sum_R (nth b (t_val a) []) = 1%R
        ∧ ∀ j, j < 2 → (0 <= nth j (nth b (t_val a) []) 0)%R.
Proof.
  apply (softmax_alignment 1 2 2 1 1 3), ex_valid. exact I.
Defined.




(** C6: a valid call returns the pair (alignments, next_state) in which
    next_state is the very alignments just computed.  These are the
    probability function applied to the energy of this step (the score of
    the projected query, the location features of the previous alignment
    and the keys) and nothing else: the probability function gives the
    same result whatever previous alignment it is handed, so nothing of
    the previous state is added to or mixed into the new one. *)
Theorem next_state_is_alignments B T U Dq F K hparams kernels ql ks
    memory_sequence_length smoothing query state st :
  valid_call B T U Dq F K hparams kernels ql ks
             memory_sequence_length query state st →
  let self := __init__ hparams kernels U ql ks memory_sequence_length smoothing in
  ∃ alignments next_state st',
    __call__ self query state st = (Ok (alignments, next_state), st')
    ∧ next_state = alignments
    ∧ ∃ processed_query f processed_location_features energy,
        match ql with Some l => dense2 l query | None => Ok query end
          = Ok processed_query
        ∧ conv1d (location_convolution self) (expand_dims_2 state) = Ok f
        ∧ dense3 (location_layer self) f = Ok processed_location_features
        ∧ (_location_sensitive_score (expand_dims_1 processed_query)
             processed_location_features ks
             (enter_scope "Location_Sensitive_Attention" st)).1 = Ok energy
        ∧ ∀ previous_alignments,
            _probability_fn (base self) energy previous_alignments
            = Ok next_state.
Proof.
  intros Hv self.
  destruct (call_steps B T U Dq F K hparams kernels ql ks memory_sequence_length
              smoothing query state st Hv)
    as (pq & f & plf & energy & v & st1 & Hpq & Hf & Hplf & _ & Hscore
        & Hd & He & Hcall).
  destruct (probability_fn_ok hparams kernels U ql ks memory_sequence_length
              smoothing energy state B T Hd He)
    as (a & Ha & _); try by destruct Hv.
  exists (mkTensor float32 a), (mkTensor float32 a). eexists.
  split; [by apply Hcall|]. split; [done|].
  exists pq, f, plf, energy. do 3 (split; [done|]).
  split; [by rewrite Hscore|]. intros prev. exact Ha.
Qed.

Lemma next_state_is_alignments_witness :
  let self := __init__ ex_hparams ex_kernels 2 ex_query_layer ex_keys None false in
  ∃ alignments next_state st',
    __call__ self ex_query ex_state fresh_store
    = (Ok (alignments, next_state), st')
    ∧ next_state = alignments
    ∧ ∃ processed_query f processed_location_features energy,
        match ex_query_layer with
        | Some l => dense2 l ex_query
        | None => Ok ex_query
        end = Ok processed_query
        ∧ conv1d (location_convolution self) (expand_dims_2 ex_state) = Ok f
        ∧ dense3 (location_layer self) f = Ok processed_location_features
        ∧ (_location_sensitive_score (expand_dims_1 processed_query)
             processed_location_features ex_keys
             (enter_scope "Location_Sensitive_Attention" fresh_store)).1
          = Ok energy
        ∧ ∀ previous_alignments,
            _probability_fn (base self) energy previous_alignments
            = Ok next_state.
Proof.
  apply (next_state_is_alignments 1 2 2 1 1 3), ex_valid. exact I.
Defined.

(** C7: the result of a call is a function of the mechanism (its kernels
    and keys), the query, the previous alignment and the scoring vector
    alone: two invocations on the same inputs, in any two stores that
    hand out the same scoring vector, return the same result. *)
Theorem call_deterministic self query state (st1 st2 : VarStore) :
  (∀ n, (get_variable "v_a" [n] float32
           (enter_scope "Location_Sensitive_Attention" st1)).1
        = (get_variable "v_a" [n] float32
             (enter_scope "Location_Sensitive_Attention" st2)).1) →
  (__call__ self query state st1).1 = (__call__ self query state st2).1.
Proof.
  intros Hv. rewrite !call_fst.
  destruct (match query_layer (base self) with
            | Some l => dense2 l query
            | None => Ok query
            end) as [pq|e]; [|done]. cbn [mbind result_bind].
  destruct (conv1d (location_convolution self) (expand_dims_2 state)) as [f|e];
    [|done]. cbn [mbind result_bind].
  destruct (dense3 (location_layer self) f) as [plf|e]; [|done].
  cbn [mbind result_bind]. by rewrite Hv.
Qed.

Lemma call_deterministic_witness :
  (__call__ (__init__ ex_hparams ex_kernels 2 ex_query_layer ex_keys None false)
            ex_query ex_state fresh_store).1
  = (__call__ (__init__ ex_hparams ex_kernels 2 ex_query_layer ex_keys None false)
              ex_query ex_state decoder_store).1.
Proof.
  apply call_deterministic. intros n. reflexivity.
Defined.

(** C9 as stated fails in the arithmetic of the program.  The row of
    energies [-2, -2, -2] has the logistic values [s, s, s], s the binary32
    number nearest to sigmoid(-2), whose sum is not zero; each entry of
    the result is 11184810 * 2^-25, just below one third, and the entries
    add up to 16777215 * 2^-24 = 0.99999994, the binary32 number just
    below 1, in whichever order they are added. *)
Lemma smoothing_row_sum_below_one_binary32 :
  let e := [[f32_minus_two; f32_minus_two; f32_minus_two]] in
  let w := S754_finite false 11184810 (-25) in
  f32_to_R f32_minus_two = (-2)%R
  ∧ (Rabs (f32_to_R (sigmoid32_table f32_minus_two) - sigmoid (-2))
     < / 2 * / IZR (2 ^ 27))%R
  ∧ reduce_sum32 (map sigmoid32_table (nth 0 e [])) = S754_finite false 11999359 (-25)
  ∧ _smoothing_normalization32 sigmoid32_table e = [[w; w; w]]
  ∧ reduce_sum32 [w; w; w] = S754_finite false 16777215 (-24)
  ∧ f32_add w (f32_add w w) = S754_finite false 16777215 (-24)
  ∧ f32_one = S754_finite false 8388608 (-23)
  ∧ SFltb (reduce_sum32 [w; w; w]) f32_one = true
  ∧ (f32_to_R (reduce_sum32 [w; w; w]) < 1)%R.
Proof.
  cbv zeta. split; [exact f32_minus_two_value|].
  split; [exact sigmoid32_minus_two_nearest|].
  repeat split; try (vm_compute; reflexivity).
  replace (reduce_sum32 _) with (S754_finite false 16777215 (-24))
    by (vm_compute; reflexivity).
  unfold f32_to_R. cbv beta iota zeta.
  replace (0 <=? -24)%Z with false by reflexivity.
  replace (2 ^ (- (-24)))%Z with 16777216%Z by reflexivity.
  lra.
Qed.

(** C9, amended: in exact real arithmetic, on an energy matrix of shape
    [B, T] the smoothing normalization returns a matrix of the same shape
    in which every row whose sum of logistic values is not zero sums to 1.
    (In binary32 the sum is 1 only up to rounding, as the row above
    shows.) *)
Theorem smoothing_rows_sum_to_one B T (e : Tensor stensor2) :
  is_floating (t_dtype e) = true →
  length (t_val e) = B → Forall (λ row, length row = T) (t_val e) →
  ∃ a : Tensor tensor2,
    _smoothing_normalization e = Ok a
    ∧ has_shape2 B T (t_val a)
    ∧ ∀ i, i < B →
        sum_R (map sigmoid_s (nth i (t_val e) [])) ≠ 0%R →
        sum_R (nth i (t_val a) []) = 1%R.
Proof.
  intros Hd HB HT. eexists. split; [by apply smoothing_closed|].
  cbn [t_val]. split.
  { split; [by rewrite length_map|].
    apply Forall_map. eapply Forall_impl; [exact HT|].
    intros row Hrow. unfold has_shape1. cbn. by rewrite length_map. }
  intros i Hi HS.
  rewrite (nth_map_lt _ _ i []) by lia. by apply normalized_sum.
Qed.

Lemma smoothing_rows_sum_to_one_witness :
  ∃ a : Tensor tensor2,
    _smoothing_normalization (mkTensor float32 [[Fin 0; Fin 1; NegInf]]) = Ok a
    ∧ has_shape2 1 3 (t_val a)
    ∧ ∀ i, i < 1 →
        sum_R (map sigmoid_s (nth i [[Fin 0; Fin 1; NegInf]] [])) ≠ 0%R →
        sum_R (nth i (t_val a) []) = 1%R.
Proof.
  apply (smoothing_rows_sum_to_one 1 3
           (mkTensor float32 [[Fin 0; Fin 1; NegInf]]));
    [reflexivity | reflexivity | repeat constructor].
Defined.

(** C10: the score function asks for [v_a] with dtype float32 whatever the
    dtype of the query, which it reads and never uses.  For a query whose
    dtype is not float32:
    - the store after the call is the one that the request
      get_variable('v_a', [num_units], float32) leaves;
    - where [v_a] does not exist and the scope lets it be created, it is
      in the store afterwards, with dtype float32;
    - no other variable is added;
    - the score computation fails;
    - on tensors of matching shapes, once the request for [v_a] has
      succeeded, the failure is the dtype error of the tensor library, and
      the vector that was handed out is float32. *)
Theorem score_requires_float32 (W_query W_fil W_keys : Tensor tensor3)
    (st : VarStore) :
  t_dtype W_query ≠ float32 →
  let n := last_dim3 (t_val W_query) in
  let full := full_name (vs_scope_name st) "v_a" in
  let out := _location_sensitive_score W_query W_fil W_keys st in
  out.2 = (get_variable "v_a" [n] float32 st).2
  ∧ (vs_vars st !! full = None → vs_reuse st ≠ ReuseTrue →
     vs_vars out.2 !! full = Some (mkVar [n] float32 (vs_init st full)))
  ∧ (∀ name var,
       vs_vars out.2 !! name = Some var → vs_vars st !! name = None →
       name = full ∧ var_dtype var = float32 ∧ var_shape var = [n])
  ∧ (∃ e, out.1 = Err e)
  ∧ (∀ B T U v st',
       has_shape3 B 1 U (t_val W_query) →
       has_shape3 B T U (t_val W_fil) →
       has_shape3 B T U (t_val W_keys) →
       get_variable "v_a" [n] float32 st = (Ok v, st') →
       t_dtype v = float32 ∧ out = (Err TypeError, st')).
Proof.
  intros Hd n full out.
  assert (Hout : out.2 = (get_variable "v_a" [n] float32 st).2)
    by apply score_store.
  split; [exact Hout|].
  destruct (get_variable "v_a" [n] float32 st) as [r st'] eqn:Hget.
  cbn [snd] in Hout. rewrite Hout. split; [|split; [|split]].
  - intros Hnone Hr. rewrite get_variable_create in Hget by done.
    injection Hget as _ <-. cbn [vs_vars]. by rewrite lookup_insert_eq.
  - intros name var Hnew Hold.
    apply get_variable_store in Hget as [-> | [_ ->]]; [congruence|].
    cbn [vs_vars] in Hnew. fold full in Hnew.
    destruct (decide (full = name)) as [<- | Hne].
    + rewrite lookup_insert_eq in Hnew. by injection Hnew as <-.
    + rewrite lookup_insert_ne in Hnew by done. congruence.
  - unfold out, _location_sensitive_score, mbind at 1, M_bind. fold n.
    rewrite Hget. destruct r as [v|e]; [|by eexists].
    destruct (get_variable_Ok _ _ _ _ _ _ Hget) as [Hv _].
    unfold lift. cbn [fst].
    destruct (tf_add3 W_keys W_query) as [s1|e] eqn:H1; [|by eexists].
    apply binop_dtype in H1 as [H1 H1']. cbn [mbind result_bind].
    destruct (tf_add3 s1 W_fil) as [s2|e] eqn:H2; [|by eexists].
    apply binop_dtype in H2 as [H2 _]. cbn [mbind result_bind].
    destruct (tf_tanh s2) as [th|e] eqn:H3; [|by eexists].
    apply tf_tanh_dtype in H3. cbn [mbind result_bind].
    destruct (tf_mul_1_3 v th) as [p|e] eqn:H4; [|by eexists].
    apply binop_dtype in H4 as [_ H4]. congruence.
  - intros B T U v st'' Hq Hl Hk [= -> ->].
    destruct (get_variable_Ok _ _ _ _ _ _ Hget) as [Hv _]. split; [done|].
    unfold out, _location_sensitive_score. fold n.
    rewrite (M_bind_Ok _ _ _ _ _ Hget). unfold lift.
    by rewrite (score_tensor_TypeError B T U).
Qed.

Lemma score_requires_float32_witness :
  ∃ st',
    _location_sensitive_score (mkTensor float64 [[[1%R; 1%R]]])
      (mkTensor float64 (t_val ex_keys)) (mkTensor float64 (t_val ex_keys))
      fresh_store = (Err TypeError, st')
    ∧ vs_vars st' !! "v_a" = Some (mkVar [2] float32 (vs_init fresh_store "v_a"))
    ∧ vs_vars fresh_store !! "v_a" = None.
Proof.
  destruct (score_requires_float32 (mkTensor float64 [[[1%R; 1%R]]])
              (mkTensor float64 (t_val ex_keys)) (mkTensor float64 (t_val ex_keys))
              fresh_store ltac:(discriminate))
    as (_ & Hnew & _ & _ & Herr).
  destruct (Herr 1 2 2 _ _ ltac:(solve_shapes) ltac:(solve_shapes)
              ltac:(solve_shapes) eq_refl) as [_ Hout].
  eexists. split; [exact Hout|]. split; [|reflexivity].
  rewrite Hout in Hnew. apply Hnew; [reflexivity | discriminate].
Defined.

(** C8 as stated fails: a second invocation of the same mechanism in the
    same graph does not read the vector the first one created.  After the
    first call the store has no variable named
    Location_Sensitive_Attention_1/v_a; the second call creates it, next
    to the first call's Location_Sensitive_Attention/v_a. *)
Lemma second_call_creates_new_scoring_vector :
  ∃ r1 st1 r2 st2,
    __call__ (__init__ ex_hparams ex_kernels 2 ex_query_layer ex_keys None false)
             ex_query ex_state fresh_store = (Ok r1, st1)
    ∧ __call__ (__init__ ex_hparams ex_kernels 2 ex_query_layer ex_keys None false)
               ex_query ex_state st1 = (Ok r2, st2)
    ∧ vs_vars st1 !! "Location_Sensitive_Attention_1/v_a" = None
    ∧ vs_vars st2 !! "Location_Sensitive_Attention_1/v_a"
      = Some (mkVar [2] float32
                (vs_init fresh_store "Location_Sensitive_Attention_1/v_a"))
    ∧ vs_vars st2 !! "Location_Sensitive_Attention/v_a"
      = Some (mkVar [2] float32
                (vs_init fresh_store "Location_Sensitive_Attention/v_a")).
Proof.
  destruct (two_calls 1 2 2 1 1 3 ex_hparams ex_kernels ex_query_layer ex_keys
              None false ex_query ex_state fresh_store (ex_valid None I))
    as (r1 & st1 & r2 & st2 & Hc1 & Hc2 & H10 & H11 & H21 & H20 & _);
    try reflexivity.
  exists r1, st1, r2, st2. split; [done|]. split; [done|].
  split; [exact H11|]. split; [exact H21|].
  etransitivity; [exact H20 | exact H10].
Qed.

(** C8, amended: the scoring vector is created lazily, by the score
    function during the first invocation of [__call__] and not at
    construction, under the variable scope that the invocation enters.  A
    subsequent invocation of [__call__] on the same mechanism from the same
    scope enters a scope of another name and creates a new vector there,
    Location_Sensitive_Attention_1/v_a, instead of reading the first one,
    which stays in the store as it was. *)
Theorem scoring_vector_per_call B T U Dq F K hparams kernels ql ks
    memory_sequence_length smoothing query state st :
  valid_call B T U Dq F K hparams kernels ql ks
             memory_sequence_length query state st →
  let self := __init__ hparams kernels U ql ks memory_sequence_length smoothing in
  let n0 := full_name (vs_scope_name st) "Location_Sensitive_Attention" in
  let n1 := full_name (vs_scope_name st) "Location_Sensitive_Attention_1" in
  variable_scope_count st n0 = 0 →
  variable_scope_count st n1 = 0 →
  vs_vars st !! full_name n0 "v_a" = None →
  vs_vars st !! full_name n1 "v_a" = None →
  ∃ r1 st1 r2 st2,
    __call__ self query state st = (Ok r1, st1)
    ∧ __call__ self query state st1 = (Ok r2, st2)
    ∧ vs_vars st1 !! full_name n0 "v_a"
      = Some (mkVar [U] float32 (vs_init st (full_name n0 "v_a")))
    ∧ vs_vars st1 !! full_name n1 "v_a" = None
    ∧ vs_vars st2 !! full_name n1 "v_a"
      = Some (mkVar [U] float32 (vs_init st (full_name n1 "v_a")))
    ∧ vs_vars st2 !! full_name n0 "v_a" = vs_vars st1 !! full_name n0 "v_a"
    ∧ full_name n0 "v_a" ≠ full_name n1 "v_a".
Proof.
  intros Hv self n0 n1 H0 H1 Hv0 Hv1. by apply (two_calls B T U Dq F K).
Qed.

Lemma scoring_vector_per_call_witness :
  ∃ r1 st1 r2 st2,
    __call__ (__init__ ex_hparams ex_kernels 2 ex_query_layer ex_keys None true)
             ex_query ex_state decoder_store = (Ok r1, st1)
    ∧ __call__ (__init__ ex_hparams ex_kernels 2 ex_query_layer ex_keys None true)
               ex_query ex_state st1 = (Ok r2, st2)
    ∧ vs_vars st1 !! "decoder/Location_Sensitive_Attention/v_a"
      = Some (mkVar [2] float32 (λ _, 1%R))
    ∧ vs_vars st1 !! "decoder/Location_Sensitive_Attention_1/v_a" = None
    ∧ vs_vars st2 !! "decoder/Location_Sensitive_Attention_1/v_a"
      = Some (mkVar [2] float32 (λ _, 1%R))
    ∧ vs_vars st2 !! "decoder/Location_Sensitive_Attention/v_a"
      = vs_vars st1 !! "decoder/Location_Sensitive_Attention/v_a"
    ∧ "decoder/Location_Sensitive_Attention/v_a"
      ≠ "decoder/Location_Sensitive_Attention_1/v_a".
Proof.
  apply (scoring_vector_per_call 1 2 2 1 1 3 ex_hparams ex_kernels
           ex_query_layer ex_keys None true ex_query ex_state decoder_store);
    try reflexivity.
  split; try done; try lia; try solve [solve_shapes].
  do 2 eexists. reflexivity.
Defined.

(** * Further properties of the score function and of a call *)

(** ** The store across calls of the score function *)

Lemma get_variable_frame name shape dtype st :
  let st' := (get_variable name shape dtype st).2 in
  vs_scope_name st' = vs_scope_name st ∧ vs_reuse st' = vs_reuse st
  ∧ vs_init st' = vs_init st ∧ vs_scope_count st' = vs_scope_count st.
Proof.
  destruct (get_variable name shape dtype st) as [r st'] eqn:Hget. cbn.
  by apply get_variable_store in Hget as [-> | [_ ->]].
Qed.

Lemma get_variable_no_reuse_twice name shape shape' dtype dtype' st :
  vs_reuse st = NoReuse →
  get_variable name shape' dtype' (get_variable name shape dtype st).2
  = (Err ValueError, (get_variable name shape dtype st).2).
Proof.
  intros Hr.
  destruct (get_variable_frame name shape dtype st) as (Hn & Hr' & _).
  destruct (get_variable name shape dtype st) as [r st'] eqn:Hget.
  cbn in *. rewrite Hr in Hr'.
  assert (is_Some (vs_vars st' !! full_name (vs_scope_name st') name)) as [w Hw].
  { rewrite Hn. unfold get_variable in Hget. rewrite Hr in Hget.
    destruct (vs_vars st !! full_name (vs_scope_name st) name) as [w|] eqn:Hl.
    - injection Hget as _ <-. by eexists.
    - injection Hget as _ <-. cbn. rewrite lookup_insert_eq. by eexists. }
  unfold get_variable. by rewrite Hw, Hr'.
Qed.


(** Where a call leaves the store: the scope it entered is left again, and
    in between the store is untouched or went through one
    [get_variable] for [v_a]. *)
Lemma call_store self query state st :
  ∃ inner,
    (__call__ self query state st).2
    = exit_scope st inner
        (vs_scope_name (enter_scope "Location_Sensitive_Attention" st))
    ∧ (inner = enter_scope "Location_Sensitive_Attention" st
       ∨ ∃ n, inner = (get_variable "v_a" [n] float32
                         (enter_scope "Location_Sensitive_Attention" st)).2).
Proof.
  unfold __call__, variable_scope, _location_sensitive_score.
  unfold mbind, M_bind, lift, mret, M_ret.
  destruct (match query_layer (base self) with
            | Some l => dense2 l query
            | None => Ok query
            end) as [pq|e]; [|eexists; split; [done | by left]].
  destruct (conv1d (location_convolution self) (expand_dims_2 state)) as [f|e];
    [|eexists; split; [done | by left]].
  destruct (dense3 (location_layer self) f) as [plf|e];
    [|eexists; split; [done | by left]].
  destruct (get_variable "v_a" [last_dim3 (t_val (expand_dims_1 pq))] float32
              (enter_scope "Location_Sensitive_Attention" st))
    as [[v|e] st1] eqn:Hget.
  - exists st1. split.
    + destruct (result_bind _ _ _ _) as [energy|e]; [|done].
      by destruct (_probability_fn (base self) energy state).
    + right. eexists. by rewrite Hget.
  - exists st1. split; [done|]. right. eexists. by rewrite Hget.
Qed.

(** X1: in a scope without reuse the score function can be called once.
    Whatever the first call was given and whatever it returned, a second
    call from the same scope is refused by the variable store: [v_a]
    already exists. *)
Theorem score_twice_without_reuse
    (W_query W_fil W_keys W_query' W_fil' W_keys' : Tensor tensor3) st :
  vs_reuse st = NoReuse →
  let st1 := (_location_sensitive_score W_query W_fil W_keys st).2 in
  _location_sensitive_score W_query' W_fil' W_keys' st1 = (Err ValueError, st1).
Proof.
  intros Hr st1. apply score_get_variable_Err.
  unfold st1. rewrite score_store. by apply get_variable_no_reuse_twice.
Qed.

Lemma score_twice_without_reuse_witness :
  let st1 := (_location_sensitive_score
                (expand_dims_1 (mkTensor float32 [[1%R; 1%R]]))
                ex_keys ex_keys fresh_store).2 in
  _location_sensitive_score (expand_dims_1 (mkTensor float32 [[1%R; 1%R]]))
    ex_keys ex_keys st1 = (Err ValueError, st1).
Proof.
  apply (score_twice_without_reuse
           (expand_dims_1 (mkTensor float32 [[1%R; 1%R]])) ex_keys ex_keys).
  reflexivity.
Defined.



(** X3: whatever a call is given and whether it succeeds or fails, it
    leaves the caller's variable scope and reuse flag as they were and
    every variable that existed before unchanged; and a [v_a] that it
    leaves under the scope it entered, where there was none, is a float32
    vector. *)
Theorem call_frame self query state st :
  let st' := (__call__ self query state st).2 in
  let v_a := full_name
               (vs_scope_name (enter_scope "Location_Sensitive_Attention" st))
               "v_a" in
  vs_scope_name st' = vs_scope_name st
  ∧ vs_reuse st' = vs_reuse st
  ∧ (∀ name var, vs_vars st !! name = Some var →
       vs_vars st' !! name = Some var)
  ∧ (∀ var, vs_vars st' !! v_a = Some var → vs_vars st !! v_a = None →
       var_dtype var = float32 ∧ ∃ n, var_shape var = [n]).
Proof.
  destruct (call_store self query state st) as (inner & -> & Hinner).
  cbn [exit_scope vs_scope_name vs_reuse vs_vars].
  split; [done|]. split; [done|].
  destruct Hinner as [-> | [n ->]].
  { split; [done|]. intros var Hnew Hold.
    change (vs_vars st !! full_name
              (vs_scope_name (enter_scope "Location_Sensitive_Attention" st))
              "v_a" = Some var) in Hnew. congruence. }
  set (entered := enter_scope "Location_Sensitive_Attention" st) in *.
  assert (vs_vars entered = vs_vars st) as Hsame by done.
  destruct (get_variable "v_a" [n] float32 entered) as [r st1] eqn:Hget.
  apply get_variable_store in Hget as [-> | [Hnone ->]]; cbn [snd vs_vars];
    rewrite ?Hsame.
  - split; [done|]. intros; congruence.
  - rewrite Hsame in Hnone. split.
    + intros name var Hvar. rewrite lookup_insert_ne; [done|]. congruence.
    + intros var Hnew Hold. rewrite lookup_insert_eq in Hnew.
      injection Hnew as <-. split; [done|]. by exists n.
Qed.

(** ** Bounds and order *)

Lemma tanh_bounds x : (-1 < tanh x < 1)%R.
Proof.
  unfold tanh, sinh, cosh.
  pose proof (exp_pos x) as Ha. pose proof (exp_pos (- x)) as Hb.
  set (a := exp x) in *. set (b := exp (- x)) in *.
  assert (0 < (a + b) / 2)%R as Hc by lra.
  assert ((a + b) / 2 * / ((a + b) / 2) = 1)%R as Hinv by (apply Rinv_r; lra).
  pose proof (Rinv_0_lt_compat _ Hc) as Hi.
  unfold Rdiv at 1 4. split; nra.
Qed.

Lemma Rabs_sum_le {A} (g h : A → R) (l : list A) :
  (∀ x, x ∈ l → Rabs (g x) <= h x)%R →
  (Rabs (sum_R (map g l)) <= sum_R (map h l))%R.
Proof.
  induction l as [|a l IH]; intros Hgh; cbn.
  - rewrite Rabs_R0. lra.
  - pose proof (Hgh a ltac:(left)) as Ha.
    specialize (IH ltac:(intros x Hx; apply Hgh; by right)).
    pose proof (Rabs_triang (g a) (foldr Rplus 0%R (map g l))) as Htri.
    unfold sum_R in *. lra.
Qed.

(** X4: the hyperbolic tangent keeps every energy within the size of the
    scoring vector: on inputs the score function accepts, the absolute
    value of each energy is at most the sum of the absolute values of the
    entries of [v_a], however large keys, query or location features
    are. *)
Theorem energy_bounded B T U (W_query W_fil W_keys : Tensor tensor3)
    (st st' : VarStore) (v_a : Tensor tensor1) :
  has_shape3 B 1 U (t_val W_query) →
  has_shape3 B T U (t_val W_fil) →
  has_shape3 B T U (t_val W_keys) →
  t_dtype W_query = float32 → t_dtype W_fil = float32 →
  t_dtype W_keys = float32 →
  get_variable "v_a" [last_dim3 (t_val W_query)] float32 st = (Ok v_a, st') →
  ∃ energy : Tensor tensor2,
    _location_sensitive_score W_query W_fil W_keys st = (Ok energy, st')
    ∧ ∀ b t, b < B → t < T →
        (Rabs (nth t (nth b (t_val energy) []) 0)
         <= sum_R (map Rabs (t_val v_a)))%R.
Proof.
  intros Hq Hl Hk Hdq Hdl Hdk Hget.
  destruct (score_ok B T U W_query W_fil W_keys st st' v_a)
    as (energy & He & _ & _ & _ & Hval); try done.
  exists energy. split; [done|]. intros b t Hb Ht.
  rewrite (Hval b t Hb Ht).
  rewrite (list_tabulate (map Rabs (t_val v_a))
             (λ u, Rabs (nth u (t_val v_a) 0%R)) (length (t_val v_a)) 0%R).
  - apply Rabs_sum_le. intros u _. rewrite Rabs_mult.
    pose proof (tanh_bounds (at3 (t_val W_keys) b t u + at3 (t_val W_query) b 0 u
                             + at3 (t_val W_fil) b t u)) as Hth.
    pose proof (Rabs_pos (nth u (t_val v_a) 0%R)) as Hv.
    assert (Rabs (tanh (at3 (t_val W_keys) b t u + at3 (t_val W_query) b 0 u
                        + at3 (t_val W_fil) b t u)) <= 1)%R as Hle.
    { apply Rabs_le. lra. }
    pose proof (Rabs_pos (tanh (at3 (t_val W_keys) b t u
                                + at3 (t_val W_query) b 0 u
                                + at3 (t_val W_fil) b t u))) as Hp.
    nra.
  - by rewrite length_map.
  - intros u Hu. by rewrite (nth_map_lt Rabs _ u 0%R).
Qed.

Lemma energy_bounded_witness :
  ∃ v_a st' energy,
    _location_sensitive_score (expand_dims_1 (mkTensor float32 [[1%R; 1%R]]))
      ex_keys ex_keys fresh_store = (Ok energy, st')
    ∧ ∀ b t, b < 1 → t < 2 →
        (Rabs (nth t (nth b (t_val energy) []) 0)
         <= sum_R (map Rabs (t_val v_a)))%R.
Proof.
  do 2 eexists.
  apply (energy_bounded 1 2 2 (expand_dims_1 (mkTensor float32 [[1%R; 1%R]]))
           ex_keys ex_keys fresh_store);
    try reflexivity; solve_shapes.
Defined.

Lemma sigmoid_lt x y : (x < y)%R → (sigmoid x < sigmoid y)%R.
Proof.
  intros Hxy. unfold sigmoid.
  pose proof (exp_pos (- x)) as Hx. pose proof (exp_pos (- y)) as Hy.
  assert (exp (- y) < exp (- x))%R as Hexp by (apply exp_increasing; lra).
  unfold Rdiv. rewrite !Rmult_1_l.
  apply Rinv_lt_contravar; [|lra].
  apply Rmult_lt_0_compat; lra.
Qed.

(** X5, in exact real arithmetic: the smoothing normalization keeps the
    order of the energies within a row.  On an energy matrix of shape
    [B, T] the result has the same shape, and of two unmasked positions of
    one row the one with the higher energy gets the higher weight: a
    weight at least as high for an energy at least as high, a strictly
    higher one for a strictly higher energy.  (Only the first half can be
    expected of rounded arithmetic, where the logistic function
    saturates.) *)
Theorem smoothing_order_preserving B T (e : Tensor stensor2) :
  is_floating (t_dtype e) = true →
  length (t_val e) = B → Forall (λ row, length row = T) (t_val e) →
  ∃ a : Tensor tensor2,
    _smoothing_normalization e = Ok a
    ∧ has_shape2 B T (t_val a)
    ∧ ∀ i j k x y,
        nth j (nth i (t_val e) []) NegInf = Fin x →
        nth k (nth i (t_val e) []) NegInf = Fin y →
        ((x <= y)%R →
         (nth j (nth i (t_val a) []) 0 <= nth k (nth i (t_val a) []) 0)%R)
        ∧ ((x < y)%R →
           (nth j (nth i (t_val a) []) 0 < nth k (nth i (t_val a) []) 0)%R).
Proof.
  intros Hd HB HT. eexists. split; [by apply smoothing_closed|].
  cbn [t_val]. split.
  { split; [by rewrite length_map|].
    apply Forall_map. eapply Forall_impl; [exact HT|].
    intros row Hrow. unfold has_shape1. cbn. by rewrite length_map. }
  intros i j k x y Hj Hk.
  set (row := nth i (t_val e) []) in *.
  assert (j < length row) as Hjlt.
  { destruct (decide (j < length row)); [done|].
    rewrite nth_overflow in Hj by lia. discriminate. }
  assert (k < length row) as Hklt.
  { destruct (decide (k < length row)); [done|].
    rewrite nth_overflow in Hk by lia. discriminate. }
  assert (i < length (t_val e)) as Hi.
  { destruct (decide (i < length (t_val e))); [done|].
    unfold row in Hjlt. rewrite nth_overflow in Hjlt by lia. cbn in Hjlt. lia. }
  rewrite (nth_map_lt _ _ i []) by done. fold row.
  rewrite (nth_map_lt _ row j NegInf), (nth_map_lt _ row k NegInf) by done.
  rewrite Hj, Hk. cbn [sigmoid_s].
  assert (0 < sum_R (map sigmoid_s row))%R as HS.
  { apply (sum_f_pos sigmoid_s sigmoid_s_nonneg sigmoid_s_pos row x).
    rewrite <- Hj. apply list_elem_of_In, nth_In. done. }
  assert (∀ x y, (x < y)%R →
            (sigmoid x / sum_R (map sigmoid_s row)
             < sigmoid y / sum_R (map sigmoid_s row))%R) as Hlt.
  { intros x' y' Hxy. apply Rmult_lt_compat_r; [by apply Rinv_0_lt_compat|].
    by apply sigmoid_lt. }
  split; [|by apply Hlt].
  intros [Hxy | ->]; [left; by apply Hlt | right; done].
Qed.

Lemma smoothing_order_preserving_witness :
  ∃ a : Tensor tensor2,
    _smoothing_normalization (mkTensor float32 [[Fin 0; Fin 1; NegInf]]) = Ok a
    ∧ has_shape2 1 3 (t_val a)
    ∧ ∀ i j k x y,
        nth j (nth i [[Fin 0; Fin 1; NegInf]] []) NegInf = Fin x →
        nth k (nth i [[Fin 0; Fin 1; NegInf]] []) NegInf = Fin y →
        ((x <= y)%R →
         (nth j (nth i (t_val a) []) 0 <= nth k (nth i (t_val a) []) 0)%R)
        ∧ ((x < y)%R →
           (nth j (nth i (t_val a) []) 0 < nth k (nth i (t_val a) []) 0)%R).
Proof.
  apply (smoothing_order_preserving 1 3
           (mkTensor float32 [[Fin 0; Fin 1; NegInf]]));
    [reflexivity | reflexivity | repeat constructor].
Defined.

(** ** Location features of an all-zero alignment *)

Lemma sum_R_zero (l : list R) : Forall (λ x, x = 0%R) l → sum_R l = 0%R.
Proof.
  induction 1 as [|x l Hx Hl IH]; cbn; [done|].
  subst x. unfold sum_R in IH. rewrite IH. lra.
Qed.

Lemma zip_with_zero {A B} (h : A → B → R) (xs : list A) (ws : list B) :
  (∀ x w, x ∈ xs → h x w = 0%R) → Forall (λ x, x = 0%R) (zip_with h xs ws).
Proof.
  revert ws. induction xs as [|x xs IH]; intros [|w ws] Hh; cbn; try constructor.
  - apply Hh. by left.
  - apply IH. intros x' w' Hx'. apply Hh. by right.
Qed.

Lemma vec_mat_zero n (W : tensor2) (x y : tensor1) :
  Forall (λ a, a = 0%R) x → vec_mat n W x = Ok y → Forall (λ a, a = 0%R) y.
Proof.
  intros Hx. unfold vec_mat. case_decide; [|discriminate]. intros [= <-].
  apply Forall_map, Forall_forall. intros u _. cbn.
  apply sum_R_zero, zip_with_zero. intros a w Ha.
  rewrite Forall_forall in Hx. rewrite (Hx a Ha). lra.
Qed.

Lemma conv_at_zero F (W : tensor3) (window : tensor2) :
  Forall (Forall (λ a, a = 0%R)) window →
  Forall (λ a, a = 0%R) (conv_at F W window).
Proof.
  intros Hw. unfold conv_at. apply Forall_map, Forall_forall. intros f _. cbn.
  apply sum_R_zero, zip_with_zero. intros xrow Wk Hxrow.
  apply sum_R_zero, zip_with_zero. intros a w Ha.
  rewrite Forall_forall in Hw. specialize (Hw xrow Hxrow).
  rewrite Forall_forall in Hw. rewrite (Hw a Ha). lra.
Qed.

Lemma conv1d_row_zero (l : Conv1D) (W : tensor3) (x y : tensor2) :
  Forall (Forall (λ a, a = 0%R)) x → conv1d_row l W x = Ok y →
  Forall (Forall (λ a, a = 0%R)) y.
Proof.
  intros Hx. unfold conv1d_row. case_decide; [|discriminate]. intros [= <-].
  apply Forall_map, Forall_forall. intros t _. cbn.
  apply conv_at_zero, Forall_take, Forall_drop. unfold pad_same.
  repeat apply Forall_app_2; try done;
    apply Forall_replicate, Forall_replicate; done.
Qed.

Lemma mapM_Ok_Forall {A B} (f : A → result B) (P : A → Prop) (Q : B → Prop)
    (l : list A) (ys : list B) :
  (∀ x y, P x → f x = Ok y → Q y) → Forall P l → mapM f l = Ok ys → Forall Q ys.
Proof.
  intros HPQ Hl. revert ys. induction Hl as [|x l Hx Hl IH]; intros ys; cbn.
  - intros [= <-]. constructor.
  - destruct (f x) as [y|e] eqn:Hy; [|discriminate]. cbn.
    destruct (mapM f l) as [ys'|e]; [|discriminate]. cbn.
    intros [= <-]. constructor; [by eapply HPQ | by apply IH].
Qed.

(** X6: both location layers are linear and have no bias, so an all-zero
    previous alignment (the usual initial state) yields all-zero
    processed location features of shape [B, T, num_units], for every
    kernel of the convolution and of the projection: at that step the
    energy depends on query and keys alone. *)
Theorem zero_alignment_zero_location_features B T U F K hparams kernels ql ks
    memory_sequence_length smoothing (state : Tensor tensor2) :
  has_shape2 B T (t_val state) →
  Forall (Forall (λ a, a = 0%R)) (t_val state) →
  attention_kernel hparams = K → attention_filters hparams = F → 0 < K →
  has_shape3 K 1 F (t_val (location_convolution_kernel kernels)) →
  length (t_val (location_layer_kernel kernels)) = F →
  t_dtype (location_convolution_kernel kernels) = t_dtype state →
  t_dtype (location_layer_kernel kernels) = t_dtype state →
  let self := __init__ hparams kernels U ql ks memory_sequence_length smoothing in
  ∃ f processed_location_features,
    conv1d (location_convolution self) (expand_dims_2 state) = Ok f
    ∧ dense3 (location_layer self) f = Ok processed_location_features
    ∧ has_shape3 B T U (t_val processed_location_features)
    ∧ Forall (Forall (Forall (λ a, a = 0%R))) (t_val processed_location_features).
Proof.
  intros Hs Hzero HK HF HK0 Hc Hl Hcd Hld self.
  destruct (conv1d_ok (location_convolution self) (expand_dims_2 state) B T)
    as (f & Hf & Hfs); cbn [location_convolution self __init__ filters
                            kernel_size conv_kernel].
  { by apply expand_dims_2_shape. }
  { by rewrite HK, HF. }
  { lia. }
  { done. }
  destruct (dense3_ok (location_layer self) (mkTensor (t_dtype (expand_dims_2 state)) f)
              B T F) as (plf & Hplf & Hplfs);
    cbn [location_layer self __init__ units dense_kernel t_val t_dtype].
  { by rewrite <- HF. }
  { done. }
  { done. }
  fold self in Hf, Hplf. eexists _, _. split; [exact Hf|]. split; [exact Hplf|].
  split; [done|]. cbn [t_val].
  (* the convolution of zeros *)
  assert (Forall (Forall (Forall (λ a, a = 0%R))) f) as Hfz.
  { unfold conv1d, binop in Hf. case_decide; [|discriminate].
    destruct (mapM _ _) as [f'|e] eqn:Hm in Hf; [|discriminate].
    injection Hf as <-.
    eapply (mapM_Ok_Forall _ (Forall (Forall (λ a, a = 0%R)))); [| |exact Hm].
    - intros x y Hx Hy. by eapply conv1d_row_zero.
    - cbn. apply Forall_map. eapply Forall_impl; [exact Hzero|].
      intros row Hrow. apply Forall_map. eapply Forall_impl; [exact Hrow|].
      intros a ->. by constructor. }
  (* its projection *)
  unfold dense3, binop in Hplf. case_decide; [|discriminate].
  destruct (mapM _ _) as [plf'|e] eqn:Hm in Hplf; [|discriminate].
  injection Hplf as <-.
  eapply (mapM_Ok_Forall _ (Forall (Forall (λ a, a = 0%R)))); [| |exact Hm].
  - intros x y Hx Hy.
    eapply (mapM_Ok_Forall _ (Forall (λ a, a = 0%R))); [| |exact Hy]; [|done].
    intros r r' Hr Hr'. by eapply vec_mat_zero.
  - done.
Qed.

Lemma zero_alignment_zero_location_features_witness :
  let self := __init__ ex_hparams ex_kernels 2 ex_query_layer ex_keys None false in
  ∃ f processed_location_features,
    conv1d (location_convolution self)
           (expand_dims_2 (mkTensor float32 [[0%R; 0%R]])) = Ok f
    ∧ dense3 (location_layer self) f = Ok processed_location_features
    ∧ has_shape3 1 2 2 (t_val processed_location_features)
    ∧ Forall (Forall (Forall (λ a, a = 0%R))) (t_val processed_location_features).
Proof.
  apply (zero_alignment_zero_location_features 1 2 2 1 3 ex_hparams ex_kernels
           ex_query_layer ex_keys None false (mkTensor float32 [[0%R; 0%R]]));
    try reflexivity; try lia; solve_shapes.
Defined.

(** ** Shapes the score function refuses or stretches *)

Lemma bcast_mismatch {A B C} (f : A → B → result C) (xs : list A) (ys : list B) :
  length xs ≠ length ys → length xs ≠ 1 → length ys ≠ 1 →
  bcast f xs ys = Err ShapeError.
Proof.
  intros Hne Hx Hy. unfold bcast.
  destruct xs as [|x [|x' xs]], ys as [|y [|y' ys]]; cbn in *; try done;
    by rewrite decide_False.
Qed.

Lemma bcast_Err_all {A B C} (f : A → B → result C) (xs : list A) (ys : list B) e :
  length xs = length ys → 0 < length xs →
  (∀ x y, x ∈ xs → y ∈ ys → f x y = Err e) →
  bcast f xs ys = Err e.
Proof.
  intros Hlen Hpos Hf. unfold bcast.
  destruct xs as [|x [|x' xs]], ys as [|y [|y' ys]]; cbn in *; try lia.
  - rewrite (Hf x y) by (by left). done.
  - rewrite decide_True by lia. cbn. rewrite (Hf x y) by (by left). done.
Qed.

(** X7: location features whose source length differs from that of the
    keys (neither being 1) are refused: the score function fails with a
    shape error instead of returning an energy.  It fails after it has
    obtained [v_a], so the store is already the one [get_variable] left. *)
Theorem score_length_mismatch B T T' U (W_query W_fil W_keys : Tensor tensor3)
    (st st' : VarStore) (v_a : Tensor tensor1) :
  0 < B → T ≠ T' → T ≠ 1 → T' ≠ 1 →
  has_shape3 B 1 U (t_val W_query) →
  has_shape3 B T' U (t_val W_fil) →
  has_shape3 B T U (t_val W_keys) →
  t_dtype W_query = float32 → t_dtype W_fil = float32 →
  t_dtype W_keys = float32 →
  get_variable "v_a" [last_dim3 (t_val W_query)] float32 st = (Ok v_a, st') →
  _location_sensitive_score W_query W_fil W_keys st = (Err ShapeError, st').
Proof.
  intros HB HT HT1 HT'1 Hq Hl Hk Hdq Hdl Hdk Hget.
  unfold _location_sensitive_score. rewrite (M_bind_Ok _ _ _ _ _ Hget).
  unfold lift. f_equal.
  destruct W_query as [dq q], W_fil as [dl l], W_keys as [dk k].
  cbn [t_val t_dtype] in *. subst dq dl dk.
  unfold tf_add3, binop; cbn [t_dtype t_val].
  rewrite decide_True by done.
  rewrite (bcast3_middle Rplus B T U) by done. cbn.
  rewrite decide_True by done.
  pose proof (zip_middle_shape3 Rplus B T U _ _ Hk Hq) as [Hs1 Hs2].
  destruct Hl as [Hl1 Hl2].
  unfold bcast3. rewrite (bcast_Err_all _ _ _ ShapeError); [done|lia|lia|].
  intros xr yr Hxr Hyr. rewrite Forall_forall in Hs2, Hl2.
  destruct (Hs2 xr Hxr) as [Hxlen _]. destruct (Hl2 yr Hyr) as [Hylen _].
  apply bcast_mismatch; lia.
Qed.

Lemma score_length_mismatch_witness :
  ∃ v_a st',
    get_variable "v_a" [2] float32 fresh_store = (Ok v_a, st')
    ∧ _location_sensitive_score (expand_dims_1 (mkTensor float32 [[1%R; 1%R]]))
        (mkTensor float32 [[[0%R; 0%R]; [0%R; 0%R]; [0%R; 0%R]]]) ex_keys
        fresh_store = (Err ShapeError, st').
Proof.
  eexists _, _. split; [reflexivity|].
  eapply (score_length_mismatch 1 2 3 2
           (expand_dims_1 (mkTensor float32 [[1%R; 1%R]]))
           (mkTensor float32 [[[0%R; 0%R]; [0%R; 0%R]; [0%R; 0%R]]]) ex_keys
           fresh_store);
    try reflexivity; try lia; solve_shapes.
Defined.

(** [B, T, U] combined with [B, 1, 1]: the single entry is used at every
    position of the two trailing axes. *)
Lemma bcast3_point f n m k (x y : tensor3) :
  has_shape3 n m k x → has_shape3 n 1 1 y →
  bcast3 f x y
  = Ok (zip_with (λ xr yr, map (map (λ a, f a (nth 0 (nth 0 yr []) 0%R))) xr) x y).
Proof.
  intros [Hx1 Hx2] [Hy1 Hy2]. apply bcast_zip; [congruence|].
  intros i xr yr Hxr Hyr.
  destruct (Forall_lookup_1 _ _ _ _ Hy2 Hyr) as [H1 Hyr2].
  destruct yr as [|y0 [|? ?]]; try discriminate.
  pose proof (Forall_inv Hyr2) as Hy0. unfold has_shape1 in Hy0.
  destruct y0 as [|q0 [|? ?]]; try discriminate. cbn [nth].
  apply (bcast_stretch_r (bcast1 f) (λ r _, map (λ a, f a q0) r)).
  intros r _.
  apply (bcast_stretch_r (λ a b, Ok (f a b)) f). done.
Qed.

Lemma zip_point_shape3 f n m k (x y : tensor3) :
  has_shape3 n m k x → has_shape3 n 1 1 y →
  has_shape3 n m k
    (zip_with (λ xr yr, map (map (λ a, f a (nth 0 (nth 0 yr []) 0%R))) xr) x y).
Proof.
  intros [Hx1 Hx2] [Hy1 Hy2]. split.
  - rewrite length_zip_with. lia.
  - apply (Forall_zip_with2 _ _ _ _ _ _ Hx2 Hy2).
    intros xr yr [Hxr1 Hxr2] _. split; [by rewrite length_map|].
    apply Forall_map. eapply Forall_impl; [exact Hxr2|].
    intros r Hr. unfold has_shape1 in *. cbn. by rewrite length_map.
Qed.

Lemma at3_zip_point f (x y : tensor3) n m k b t u :
  has_shape3 n m k x → has_shape3 n 1 1 y → b < n → t < m → u < k →
  at3 (zip_with (λ xr yr, map (map (λ a, f a (nth 0 (nth 0 yr []) 0%R))) xr) x y)
      b t u
  = f (at3 x b t u) (at3 y b 0 0).
Proof.
  intros Hx Hy Hb Ht Hu. unfold at3.
  pose proof (has_shape3_nth _ _ _ _ b Hx Hb) as Hxb.
  pose proof (has_shape2_nth _ _ _ t Hxb Ht) as Hxt.
  destruct Hx as [Hx _], Hy as [Hy _], Hxb as [Hxb _].
  rewrite (nth_zip_with_lt _ x y b [] []) by lia.
  rewrite (nth_map_lt _ _ t []) by lia.
  rewrite (nth_map_lt _ _ u 0%R) by lia. done.
Qed.

(** X8: the number of units is read from the query alone.  A processed
    query with a single unit is accepted against keys and location
    features with U units: its entry is added to every unit, [v_a] is
    created with a single entry, and that entry weights all U units
    alike. *)
Theorem score_single_unit_query B T U (W_query W_fil W_keys : Tensor tensor3)
    (st st' : VarStore) (v_a : Tensor tensor1) :
  0 < B →
  has_shape3 B 1 1 (t_val W_query) →
  has_shape3 B T U (t_val W_fil) →
  has_shape3 B T U (t_val W_keys) →
  t_dtype W_query = float32 → t_dtype W_fil = float32 →
  t_dtype W_keys = float32 →
  get_variable "v_a" [last_dim3 (t_val W_query)] float32 st = (Ok v_a, st') →
  ∃ energy : Tensor tensor2,
    _location_sensitive_score W_query W_fil W_keys st = (Ok energy, st')
    ∧ length (t_val v_a) = 1
    ∧ has_shape2 B T (t_val energy)
    ∧ ∀ b t, b < B → t < T →
        nth t (nth b (t_val energy) []) 0%R
        = sum_R (map (λ u, (nth 0 (t_val v_a) 0 *
                            tanh (at3 (t_val W_keys) b t u
                                  + at3 (t_val W_query) b 0 0
                                  + at3 (t_val W_fil) b t u))%R)
                     (seq 0 U)).
Proof.
  intros HB Hq Hl Hk Hdq Hdl Hdk Hget.
  destruct (get_variable_Ok _ _ _ _ _ _ Hget) as [Hdv Hlen].
  rewrite (last_dim3_shape B 1) in Hlen by done. cbn in Hlen.
  destruct W_query as [dq q], W_fil as [dl l], W_keys as [dk k], v_a as [dv v].
  cbn [t_val t_dtype] in *. subst dq dl dk dv.
  destruct v as [|v0 [|? ?]]; try discriminate.
  set (s1 := zip_with (λ xr yr, map (map (λ a, (a + nth 0 (nth 0 yr []) 0)%R)) xr) k q).
  set (s2 := zip_with (zip_with (zip_with Rplus)) s1 l).
  set (th := map (map (map tanh)) s2).
  assert (Hs1 : has_shape3 B T U s1) by (by apply zip_point_shape3).
  assert (Hs2 : has_shape3 B T U s2) by (by apply zip_with_shape3).
  assert (Hth : has_shape3 B T U th) by (by apply map3_shape3).
  exists (mkTensor float32 (map (map sum_R) (map (map (map (Rmult v0))) th))).
  split; [|split; [done|split]].
  - unfold _location_sensitive_score. rewrite (M_bind_Ok _ _ _ _ _ Hget).
    unfold lift. f_equal.
    unfold tf_add3, binop; cbn [t_dtype t_val].
    rewrite decide_True by done.
    rewrite (bcast3_point Rplus B T U) by done. cbn.
    rewrite decide_True by done.
    rewrite (bcast3_same Rplus B T U) by done. cbn.
    unfold tf_mul_1_3, binop; cbn [t_dtype t_val].
    rewrite decide_True by done.
    unfold bcast3.
    rewrite (bcast_stretch_l (bcast2 Rmult) (λ _ xr, map (map (Rmult v0)) xr));
      [done|].
    intros xr _.
    apply (bcast_stretch_l (bcast1 Rmult) (λ _ r, map (Rmult v0) r)).
    intros r _. apply (bcast_stretch_l (λ a b, Ok (a * b)%R) Rmult). done.
  - cbn [t_val]. destruct Hth as [Hth1 Hth2]. split; [by rewrite !length_map|].
    rewrite !Forall_map. eapply Forall_impl; [exact Hth2|].
    intros xr [Hxr _]. unfold has_shape1. cbn. by rewrite !length_map.
  - intros b t Hb Ht. cbn [t_val].
    pose proof (has_shape3_nth _ _ _ _ b Hth Hb) as Hthb.
    pose proof (has_shape2_nth _ _ _ t Hthb Ht) as Hthbt.
    destruct Hth as [Hth1 _], Hthb as [Hthb1 _].
    rewrite (nth_map_lt _ _ b []) by (rewrite length_map; lia).
    rewrite (nth_map_lt _ _ b []) by lia.
    rewrite (nth_map_lt _ _ t []) by (rewrite length_map; lia).
    rewrite (nth_map_lt _ _ t []) by lia.
    f_equal. apply (list_tabulate _ _ _ 0%R).
    { by rewrite length_map. }
    intros u Hu. rewrite (nth_map_lt _ _ u 0%R) by lia. f_equal.
    change (nth u (nth t (nth b th []) []) 0%R) with (at3 th b t u).
    unfold th. rewrite (at3_map tanh B T U) by (done || lia). f_equal.
    unfold s2. rewrite (at3_zip_same Rplus _ _ B T U) by (done || lia). f_equal.
    unfold s1. rewrite (at3_zip_point Rplus _ _ B T U) by (done || lia). done.
Qed.

Lemma score_single_unit_query_witness :
  ∃ v_a st' energy,
    _location_sensitive_score (mkTensor float32 [[[1%R]]]) ex_keys ex_keys
      fresh_store = (Ok energy, st')
    ∧ length (t_val v_a) = 1
    ∧ has_shape2 1 2 (t_val energy)
    ∧ ∀ b t, b < 1 → t < 2 →
        nth t (nth b (t_val energy) []) 0%R
        = sum_R (map (λ u, (nth 0 (t_val v_a) 0 *
                            tanh (at3 (t_val ex_keys) b t u
                                  + at3 [[[1%R]]] b 0 0
                                  + at3 (t_val ex_keys) b t u))%R)
                     (seq 0 2)).
Proof.
  do 2 eexists.
  apply (score_single_unit_query 1 2 2 (mkTensor float32 [[[1%R]]])
           ex_keys ex_keys fresh_store);
    try reflexivity; try lia; solve_shapes.
Defined.

(** ** Step after step *)

(** After a first valid call under a scope in which the mechanism's scope
    name and its first successor are unused, the store admits the next
    call, on any query and state of the right shape. *)
Lemma valid_call_next B T U Dq F K hparams kernels ql ks memory_sequence_length
    smoothing query state query' state' st r st1 :
  valid_call B T U Dq F K hparams kernels ql ks
             memory_sequence_length query state st →
  let self := __init__ hparams kernels U ql ks memory_sequence_length smoothing in
  let n0 := full_name (vs_scope_name st) "Location_Sensitive_Attention" in
  let n1 := full_name (vs_scope_name st) "Location_Sensitive_Attention_1" in
  variable_scope_count st n0 = 0 → variable_scope_count st n1 = 0 →
  vs_vars st !! full_name n0 "v_a" = None →
  vs_vars st !! full_name n1 "v_a" = None →
  __call__ self query state st = (Ok r, st1) →
  has_shape2 B Dq (t_val query') ∧ t_dtype query' = float32 →
  has_shape2 B T (t_val state') ∧ t_dtype state' = float32 →
  valid_call B T U Dq F K hparams kernels ql ks
             memory_sequence_length query' state' st1.
Proof.
  intros Hv self n0 n1 H0 H1 Hv0 Hv1 Hc Hq' Hs'.
  assert (Hn01 : n0 ≠ n1).
  { intros Heq. by apply full_name_inj in Heq. }
  assert (Hne : full_name n0 "v_a" ≠ full_name n1 "v_a").
  { unfold n0, n1. rewrite !full_name_nested by done.
    intros Heq. by apply full_name_inj in Heq. }
  destruct (call_ok B T U Dq F K hparams kernels ql ks memory_sequence_length
              smoothing query state st Hv)
    as (energy & v & st1' & Hget & Hd & He & Hcall).
  destruct (probability_fn_ok hparams kernels U ql ks memory_sequence_length
              smoothing energy state B T Hd He)
    as (a & Ha & _); try by destruct Hv.
  specialize (Hcall _ Ha).
  rewrite enter_scope_first in Hget, Hcall by done. fold n0 in Hget, Hcall.
  cbn [vs_scope_name] in Hcall.
  fold self in Hcall. rewrite Hcall in Hc. injection Hc as _ <-.
  pose proof (λ H, get_variable_None_reuse _ _ _ _ _ _ H Hget) as Hreuse.
  specialize (Hreuse Hv0). cbn [vs_reuse] in Hreuse.
  rewrite get_variable_create in Hget by done.
  cbn [vs_vars vs_scope_count vs_scope_name vs_reuse vs_init] in *.
  injection Hget as _ <-.
  set (st1 := exit_scope st _ n0).
  assert (Hc0 : variable_scope_count st1 n0 ≠ 0).
  { unfold variable_scope_count, st1, exit_scope, close_variable_subscopes.
    cbn [vs_scope_count]. rewrite map_lookup_imap, lookup_insert_eq. cbn.
    by rewrite prefix_app_slash. }
  assert (Hc1 : variable_scope_count st1 n1 = 0).
  { unfold variable_scope_count, st1, exit_scope, close_variable_subscopes.
    cbn [vs_scope_count]. rewrite map_lookup_imap, lookup_insert_ne by done.
    unfold variable_scope_count in H1.
    destruct (vs_scope_count st !! n1) as [k|]; [|done]. cbn in *. subst k.
    by destruct (String.prefix _ _). }
  assert (He2 : enter_scope "Location_Sensitive_Attention" st1
                = mkStore (vs_vars st1) (<[n1 := 1]> (vs_scope_count st1))
                          n1 (vs_reuse st1) (vs_init st1)).
  { by apply enter_scope_second. }
  assert (Hv1' : vs_vars st1 !! full_name n1 "v_a" = None).
  { unfold st1, exit_scope. cbn [vs_vars]. by rewrite lookup_insert_ne. }
  destruct Hv. split; try done. rewrite He2. do 2 eexists.
  by apply get_variable_create.
Qed.

(** X9: the state returned by one step is a valid state for the next.
    In a graph where the mechanism's scope name is unused, a valid call
    followed by a call on a new query and on the returned next_state
    succeeds again, and what it returns is again a [B, T] alignment whose
    rows sum to 1. *)
Theorem two_decoding_steps B T U Dq F K hparams kernels ql ks
    memory_sequence_length smoothing query query' state st :
  valid_call B T U Dq F K hparams kernels ql ks
             memory_sequence_length query state st →
  has_shape2 B Dq (t_val query') ∧ t_dtype query' = float32 →
  let self := __init__ hparams kernels U ql ks memory_sequence_length smoothing in
  let n0 := full_name (vs_scope_name st) "Location_Sensitive_Attention" in
  let n1 := full_name (vs_scope_name st) "Location_Sensitive_Attention_1" in
  variable_scope_count st n0 = 0 → variable_scope_count st n1 = 0 →
  vs_vars st !! full_name n0 "v_a" = None →
  vs_vars st !! full_name n1 "v_a" = None →
  ∃ alignments next_state st1 alignments' next_state' st2,
    __call__ self query state st = (Ok (alignments, next_state), st1)
    ∧ __call__ self query' next_state st1
      = (Ok (alignments', next_state'), st2)
    ∧ t_dtype next_state' = float32
    ∧ has_shape2 B T (t_val next_state')
    ∧ ∀ b, b < B → sum_R (nth b (t_val next_state') []) = 1%R.
Proof.
  intros Hv Hq' self n0 n1 H0 H1 Hv0 Hv1.
  destruct (call_alignments B T U Dq F K hparams kernels ql ks
              memory_sequence_length smoothing query state st Hv)
    as (a & st1 & Hcall & Hshape & _). fold self in Hcall.
  assert (Hv2 : valid_call B T U Dq F K hparams kernels ql ks
                  memory_sequence_length query' (mkTensor float32 a) st1).
  { by eapply (valid_call_next B T U Dq F K hparams kernels ql ks
                 memory_sequence_length smoothing query state). }
  destruct (call_alignments B T U Dq F K hparams kernels ql ks
              memory_sequence_length smoothing query' (mkTensor float32 a) st1 Hv2)
    as (a' & st2 & Hcall' & Hshape' & Hrows'). fold self in Hcall'.
  eexists _, _, st1, _, _, st2. split; [exact Hcall|]. split; [exact Hcall'|].
  split; [done|]. split; [done|]. intros b Hb. by destruct (Hrows' b Hb).
Qed.

Lemma two_decoding_steps_witness :
  let self := __init__ ex_hparams ex_kernels 2 ex_query_layer ex_keys
                       (Some [1%Z]) false in
  ∃ alignments next_state st1 alignments' next_state' st2,
    __call__ self ex_query ex_state fresh_store
    = (Ok (alignments, next_state), st1)
    ∧ __call__ self (mkTensor float32 [[2%R]]) next_state st1
      = (Ok (alignments', next_state'), st2)
    ∧ t_dtype next_state' = float32
    ∧ has_shape2 1 2 (t_val next_state')
    ∧ ∀ b, b < 1 → sum_R (nth b (t_val next_state') []) = 1%R.
Proof.
  apply (two_decoding_steps 1 2 2 1 1 3 ex_hparams ex_kernels ex_query_layer
           ex_keys (Some [1%Z]) false ex_query (mkTensor float32 [[2%R]])
           ex_state fresh_store);
    try reflexivity.
  - apply ex_valid. split; [reflexivity | repeat constructor].
  - solve_shapes.
Defined.

(** ** Consecutive calls *)

Lemma string_length_app (a b : string) :
  String.length (a +:+ b) = String.length a + String.length b.
Proof.
  induction a as [|x a IH]; [done|].
  change (S (String.length (a +:+ b)) = S (String.length a + String.length b)).
  by rewrite IH.
Qed.

Lemma string_app_inv_tail (a b s : string) : a +:+ s = b +:+ s → a = b.
Proof.
  revert b. induction a as [|x a IH]; intros [|y b] Heq; [done| | |].
  - apply (f_equal String.length) in Heq.
    change (String.length s = S (String.length (b +:+ s))) in Heq.
    rewrite string_length_app in Heq. lia.
  - apply (f_equal String.length) in Heq.
    change (S (String.length (a +:+ s)) = String.length s) in Heq.
    rewrite string_length_app in Heq. lia.
  - change (String x (a +:+ s) = String y (b +:+ s)) in Heq.
    injection Heq as -> Heq. f_equal. by apply IH.
Qed.

Lemma call_store_count self query state st :
  vs_scope_count (__call__ self query state st).2
  = close_variable_subscopes
      (vs_scope_name (enter_scope "Location_Sensitive_Attention" st))
      (vs_scope_count (enter_scope "Location_Sensitive_Attention" st))
  ∧ vs_scope_name (__call__ self query state st).2 = vs_scope_name st.
Proof.
  destruct (call_store self query state st) as (inner & -> & Hinner).
  cbn [exit_scope vs_scope_count vs_scope_name]. split; [|done].
  destruct Hinner as [-> | [n ->]]; [done|].
  by destruct (get_variable_frame "v_a" [n] float32
                 (enter_scope "Location_Sensitive_Attention" st))
    as (_ & _ & _ & ->).
Qed.

(** X10: in every store, two consecutive calls on a mechanism from the
    same scope enter different variable scopes, and so ask for their
    [v_a] under different full names: without the enclosing scope being
    entered again, calls never share a scoring vector. *)
Theorem consecutive_calls_enter_distinct_scopes self query state st :
  let st1 := (__call__ self query state st).2 in
  let n0 := vs_scope_name (enter_scope "Location_Sensitive_Attention" st) in
  let n1 := vs_scope_name (enter_scope "Location_Sensitive_Attention" st1) in
  n0 ≠ n1 ∧ full_name n0 "v_a" ≠ full_name n1 "v_a".
Proof.
  intros st1 n0 n1.
  destruct (call_store_count self query state st) as [Hcount Hname].
  fold st1 in Hcount, Hname. fold n0 in Hcount.
  assert (Hused : variable_scope_count st1 n0 ≠ 0).
  { unfold variable_scope_count. rewrite Hcount.
    unfold close_variable_subscopes. rewrite map_lookup_imap.
    unfold n0 at 2, enter_scope. cbn [vs_scope_count vs_scope_name].
    fold (enter_scope "Location_Sensitive_Attention" st).
    change (full_name (vs_scope_name st)
              (_get_unique_variable_scope "Location_Sensitive_Attention" st))
      with n0.
    rewrite lookup_insert_eq. cbn. by rewrite prefix_app_slash. }
  assert (Hfresh : variable_scope_count st1 n1 = 0)
    by apply unique_variable_scope_unused.
  assert (Hne : n0 ≠ n1) by congruence.
  assert (Hn0 : n0 ≠ "").
  { unfold n0, enter_scope. cbn [vs_scope_name]. apply full_name_ne_empty.
    unfold _get_unique_variable_scope. by case_decide. }
  assert (Hn1 : n1 ≠ "").
  { unfold n1, enter_scope. cbn [vs_scope_name]. apply full_name_ne_empty.
    unfold _get_unique_variable_scope. by case_decide. }
  split; [done|].
  unfold full_name. rewrite !decide_False by done.
  intros Heq. by apply string_app_inv_tail in Heq.
Qed.

(** ** A call that finds its scoring vector *)


